(** * facebook-python-sdk: the signed-cookie verifier and the Graph request
      dispatcher of [facebook/facebook.py], embedded and verified.

    The module is Python 2 code ([cgi.parse_qs], [hashlib.md5] over [str]):
    a [str] is a byte string, modelled by [string] (a list of 8-bit [ascii]);
    a [dict] is a [gmap]; a call either returns or raises, which [result]
    records; [time.time()] is an argument; the network is an oracle asked
    with the log of the calls made so far, and client code is a function of
    that log ([io]).

    Library functions the module calls ([str.strip], [str.split],
    [cgi.parse_qs], [int], [hashlib.md5]) are written out as CPython 2.7
    computes them, so that every definition below runs on concrete inputs. *)

From Stdlib Require Import ZArith QArith Qcanon Ascii String List.
From stdpp Require Import gmap strings list fin_maps sorting pretty.

Set Warnings "-register-all".
Open Scope Z_scope.

(** ** Byte strings *)

Module Str.

(** [c * n] *)
Fixpoint times (c : ascii) (n : nat) : string :=
  match n with
  | O => EmptyString
  | S n' => String c (times c n')
  end.

(** [s.strip(chars)] for a one-character set: every leading and every
    trailing occurrence of [c] goes. *)
Fixpoint lstrip (c : ascii) (s : string) : string :=
  match s with
  | String a s' => if Ascii.eqb a c then lstrip c s' else s
  | EmptyString => EmptyString
  end.

Fixpoint rstrip (c : ascii) (s : string) : string :=
  match s with
  | String a s' =>
      match rstrip c s' with
      | EmptyString => if Ascii.eqb a c then EmptyString else String a EmptyString
      | r => String a r
      end
  | EmptyString => EmptyString
  end.

Definition strip (c : ascii) (s : string) : string := rstrip c (lstrip c s).

(** [s.split(sep)] with a one-character separator: the fields between the
    separators, empty ones included; never the empty list. *)
Fixpoint split (sep : ascii) (s : string) : list string :=
  match s with
  | EmptyString => [EmptyString]
  | String a s' =>
      if Ascii.eqb a sep then EmptyString :: split sep s'
      else match split sep s' with
           | f :: fs => String a f :: fs
           | [] => [String a EmptyString]
           end
  end.

(** [s.split(sep, 1)]: cut at the first separator only. *)
Fixpoint split1 (sep : ascii) (s : string) : list string :=
  match s with
  | EmptyString => [EmptyString]
  | String a s' =>
      if Ascii.eqb a sep then [EmptyString; s']
      else match split1 sep s' with
           | f :: fs => String a f :: fs
           | [] => [String a EmptyString]
           end
  end.

(** [s.replace(a, b)] on single characters. *)
Fixpoint replace (a b : ascii) (s : string) : string :=
  match s with
  | EmptyString => EmptyString
  | String c s' => String (if Ascii.eqb c a then b else c) (replace a b s')
  end.

(** [c in s] *)
Fixpoint occurs (c : ascii) (s : string) : bool :=
  match s with
  | EmptyString => false
  | String a s' => Ascii.eqb a c || occurs c s'
  end.

(** ["".join(l)] *)
Definition join (l : list string) : string := fold_right String.append "" l.

Definition bytes (s : string) : list Z :=
  List.map (fun c => Z.of_N (N_of_ascii c)) (list_ascii_of_string s).

End Str.

(** ** MD5 (RFC 1321), as [hashlib.md5(data).hexdigest()] computes it *)

Module MD5.

Definition mask32 : Z := 4294967295.
Definition wrap32 (x : Z) : Z := Z.land x mask32.
Definition add32 (x y : Z) : Z := wrap32 (x + y).
Definition not32 (x : Z) : Z := Z.lxor x mask32.
Definition rotl32 (x : Z) (c : Z) : Z :=
  Z.lor (wrap32 (Z.shiftl x c)) (Z.shiftr x (32 - c)).

Definition shifts : list Z :=
  [7; 12; 17; 22; 7; 12; 17; 22; 7; 12; 17; 22; 7; 12; 17; 22;
   5; 9; 14; 20; 5; 9; 14; 20; 5; 9; 14; 20; 5; 9; 14; 20;
   4; 11; 16; 23; 4; 11; 16; 23; 4; 11; 16; 23; 4; 11; 16; 23;
   6; 10; 15; 21; 6; 10; 15; 21; 6; 10; 15; 21; 6; 10; 15; 21].

Definition sines : list Z :=
  [3614090360; 3905402710; 606105819; 3250441966;
   4118548399; 1200080426; 2821735955; 4249261313;
   1770035416; 2336552879; 4294925233; 2304563134;
   1804603682; 4254626195; 2792965006; 1236535329;
   4129170786; 3225465664; 643717713; 3921069994;
   3593408605; 38016083; 3634488961; 3889429448;
   568446438; 3275163606; 4107603335; 1163531501;
   2850285829; 4243563512; 1735328473; 2368359562;
   4294588738; 2272392833; 1839030562; 4259657740;
   2763975236; 1272893353; 4139469664; 3200236656;
   681279174; 3936430074; 3572445317; 76029189;
   3654602809; 3873151461; 530742520; 3299628645;
   4096336452; 1126891415; 2878612391; 4237533241;
   1700485571; 2399980690; 4293915773; 2240044497;
   1873313359; 4264355552; 2734768916; 1309151649;
   4149444226; 3174756917; 718787259; 3951481745].

(** little-endian bytes of a [w]-byte word and back *)
Fixpoint le_bytes (w : nat) (x : Z) : list Z :=
  match w with
  | O => []
  | S w' => Z.land x 255 :: le_bytes w' (Z.shiftr x 8)
  end.

Fixpoint le_word (bs : list Z) : Z :=
  match bs with
  | [] => 0
  | b :: bs' => Z.lor b (Z.shiftl (le_word bs') 8)
  end.

Definition pad (msg : list Z) : list Z :=
  let n := Z.of_nat (length msg) in
  let zeros := Z.to_nat ((55 - n) mod 64) in
  msg ++ 128 :: repeat 0 zeros ++ le_bytes 8 (8 * n).

(** cut a list into pieces of [k + 1] elements ([fuel] bounds the pieces) *)
Fixpoint chunks {A} (fuel : nat) (k : nat) (l : list A) : list (list A) :=
  match fuel, l with
  | _, [] => []
  | O, _ => []
  | S fuel', _ => firstn (S k) l :: chunks fuel' k (skipn (S k) l)
  end.

Definition words (block : list Z) : list Z :=
  List.map le_word (chunks 16 3 block).

Record state := State { sa : Z; sb : Z; sc : Z; sd : Z }.

Definition initial : state :=
  State 1732584193 4023233417 2562383102 271733878.

Definition round (M : list Z) (st : state) (i : nat) : state :=
  let '(State A B C D) := st in
  let zi := Z.of_nat i in
  let '(F, g) :=
    if zi <? 16 then (Z.lor (Z.land B C) (Z.land (not32 B) D), zi)
    else if zi <? 32 then
      (Z.lor (Z.land D B) (Z.land (not32 D) C), (5 * zi + 1) mod 16)
    else if zi <? 48 then (Z.lxor B (Z.lxor C D), (3 * zi + 5) mod 16)
    else (Z.lxor C (Z.lor B (not32 D)), (7 * zi) mod 16) in
  let F' := add32 (add32 (add32 F A) (nth i sines 0)) (nth (Z.to_nat g) M 0) in
  State D (add32 B (rotl32 F' (nth i shifts 0))) B C.

Definition compress (st : state) (block : list Z) : state :=
  let '(State A B C D) := fold_left (round (words block)) (seq 0 64) st in
  State (add32 (sa st) A) (add32 (sb st) B) (add32 (sc st) C) (add32 (sd st) D).

Definition digest (msg : list Z) : list Z :=
  let p := pad msg in
  let '(State A B C D) := fold_left compress (chunks (length p) 63 p) initial in
  le_bytes 4 A ++ le_bytes 4 B ++ le_bytes 4 C ++ le_bytes 4 D.

Definition hex_digit (n : Z) : ascii :=
  ascii_of_N (Z.to_N (if n <? 10 then 48 + n else 87 + n)).

Definition hex_byte (b : Z) : string :=
  String (hex_digit (Z.shiftr b 4)) (String (hex_digit (Z.land b 15)) "").

Definition hexdigest (data : string) : string :=
  Str.join (List.map hex_byte (digest (Str.bytes data))).

End MD5.

(** ** Python values, exceptions and results *)

(** What [json.loads] produces and what keyword arguments carry.  A float is
    kept as the rational it denotes. *)
Inductive pyval :=
  | PNone
  | PBool (b : bool)
  | PInt (z : Z)
  | PFloat (q : Q)
  | PStr (s : string)
  | PList (l : list pyval)
  | PDict (d : gmap string pyval).

Inductive exn :=
  | KeyError (key : string)
  | ValueError
  | IndexError
  | AttributeError
  | TypeError
  | AssertionError (msg : string)
  | GraphAPIError (type message : pyval)
  | TransportError (name : string).

Inductive result (A : Type) :=
  | Ok (a : A)
  | Raise (e : exn).
Arguments Ok {A} a.
Arguments Raise {A} e.

#[global] Instance result_ret : MRet result := fun A a => Ok a.
#[global] Instance result_bind : MBind result := fun A B f r =>
  match r with
  | Ok a => f a
  | Raise e => Raise e
  end.

Definition dquote : ascii := "034"%char.

(** ** Builtins and library functions the verifier calls *)

Module Py.

(** [d[k]] *)
Definition getitem {V} (d : gmap string V) (k : string) : result V :=
  match d !! k with
  | Some v => Ok v
  | None => Raise (KeyError k)
  end.

Definition is_space (c : ascii) : bool :=
  let n := N_of_ascii c in ((n =? 32) || ((9 <=? n) && (n <=? 13)))%N.

Definition digit (c : ascii) : option Z :=
  let n := N_of_ascii c in
  if ((48 <=? n) && (n <=? 57))%N then Some (Z.of_N n - 48) else None.

Fixpoint lstrip_ws (s : string) : string :=
  match s with
  | String a s' => if is_space a then lstrip_ws s' else s
  | EmptyString => EmptyString
  end.

Definition strip_ws (s : string) : string :=
  String.rev (lstrip_ws (String.rev (lstrip_ws s))).

Fixpoint digits (acc : Z) (s : string) : option Z :=
  match s with
  | EmptyString => Some acc
  | String c s' =>
      match digit c with
      | Some d => digits (10 * acc + d) s'
      | None => None
      end
  end.

Definition unsigned (s : string) : option Z :=
  match s with
  | EmptyString => None
  | _ => digits 0 s
  end.

(** [PyOS_strtol] in base 10: an optional sign, then [PyOS_strtoul], which
    skips whitespace once more before it reads the digits, of which there
    must be at least one *)
Definition literal (s : string) : option Z :=
  match s with
  | String "+" s' => unsigned (lstrip_ws s')
  | String "-" s' => Z.opp <$> unsigned (lstrip_ws s')
  | _ => unsigned s
  end.

(** [int(s)] on a [str] of Python 2: surrounding whitespace is dropped, then
    the text must be a decimal literal with an optional sign, which
    whitespace may follow ([int("- 5")] is [-5]); anything else is a
    [ValueError]. *)
Definition int (s : string) : result Z :=
  match literal (strip_ws s) with
  | Some z => Ok z
  | None => Raise ValueError
  end.

(** [x < n] for a float [x] and an integer [n]: Python compares the exact
    values. *)
Definition float_lt_int (x : Q) (n : Z) : bool := negb (Qle_bool (inject_Z n) x).

End Py.

Module Cgi.

Definition hex_val (c : ascii) : option N :=
  let n := N_of_ascii c in
  (if (48 <=? n) && (n <=? 57) then Some (n - 48)
   else if (65 <=? n) && (n <=? 70) then Some (n - 55)
   else if (97 <=? n) && (n <=? 102) then Some (n - 87)
   else None)%N.

(** one piece after a [%]: two hex digits decode to a byte, anything else
    keeps its [%] *)
Definition unquote_item (item : string) : string :=
  match item with
  | String a (String b rest) =>
      match hex_val a, hex_val b with
      | Some x, Some y => String (ascii_of_N (16 * x + y)) rest
      | _, _ => String "%" item
      end
  | _ => String "%" item
  end.

(** [urllib.unquote] *)
Definition unquote (s : string) : string :=
  match Str.split "%" s with
  | [] => s
  | bit :: items => Str.join (bit :: List.map unquote_item items)
  end.

Definition field (s : string) : string := unquote (Str.replace "+" " " s).

(** [parse_qsl(qs)] with [keep_blank_values] and [strict_parsing] off:
    fields are cut at [&] and [;], a field without [=] or with an empty
    value is skipped. *)
Definition parse_qsl (qs : string) : list (string * string) :=
  let pairs := List.concat (List.map (Str.split ";") (Str.split "&" qs)) in
  List.flat_map
    (fun name_value =>
       match name_value with
       | EmptyString => []
       | _ =>
           match Str.split1 "=" name_value with
           | [n; v] =>
               match v with
               | EmptyString => []
               | _ => [(field n, field v)]
               end
           | _ => []
           end
       end)
    pairs.

(** the loop body of [parse_qs]: append to the list of a known name, start
    a list for a new one *)
Definition add_value (d : gmap string (list string)) (nv : string * string)
    : gmap string (list string) :=
  let '(name, value) := nv in
  match d !! name with
  | Some vs => <[name := vs ++ [value]]> d
  | None => <[name := [value]]> d
  end.

(** [parse_qs(qs)]: every name with the list of its values, in order *)
Definition parse_qs (qs : string) : gmap string (list string) :=
  fold_left add_value (parse_qsl qs) ∅.

End Cgi.

(** ** [get_user_from_cookie] *)

(** [dict((k, v[-1]) for k, v in d.items())]; [v[-1]] on an empty list is an
    [IndexError]. *)
Definition last_item (v : list string) : string := List.last v "".

Definition last_values (d : gmap string (list string)) : result (gmap string string) :=
  if decide (map_Forall (fun _ v => v ≠ []) d)
  then Ok (last_item <$> d)
  else Raise IndexError.

(** line 482: the payload mapping of a cookie value *)
Definition cookie_args (cookie : string) : result (gmap string string) :=
  last_values (Cgi.parse_qs (Str.strip dquote cookie)).

(** [sorted(args.keys())] *)
Definition sorted_keys (args : gmap string string) : list string :=
  merge_sort String.le (elements (dom args)).

(** lines 483-484: the string that is signed; [k] ranges over the keys of
    [args], so [args[k]] is always there *)
Definition signing_string (args : gmap string string) : string :=
  Str.join
    ((fun k => k +:+ "=" +:+ args !!! k)
       <$> filter (fun k => k ≠ "sig") (sorted_keys args)).

(** line 487: the test that lets the payload through; [now] is [time.time()] *)
Definition accepted (now : Q) (sig : string) (args : gmap string string)
    (expires : Z) : bool :=
  bool_decide (Some sig = args !! "sig")
  && ((expires =? 0) || Py.float_lt_int now expires).

Definition get_user_from_cookie (now : Q) (cookies : gmap string string)
    (app_id app_secret : string) : result (option (gmap string string)) :=
  let cookie := default "" (cookies !! ("fbs_" +:+ app_id)) in
  if decide (cookie = "") then Ok None
  else
    args ← cookie_args cookie;
    let payload := signing_string args in
    let sig := MD5.hexdigest (payload +:+ app_secret) in
    text ← Py.getitem args "expires";
    expires ← Py.int text;
    if accepted now sig args expires then Ok (Some args) else Ok None.

(** ** The Graph client: values, the network, the [io] monad *)

Abbreviation dict := (gmap string pyval).

Module Val.

(** truth value of an object in a condition *)
Definition truthy (v : pyval) : bool :=
  match v with
  | PNone => false
  | PBool b => b
  | PInt z => negb (z =? 0)
  | PFloat x => negb (Qeq_bool x 0)
  | PStr s => negb (String.eqb s "")
  | PList l => match l with [] => false | _ => true end
  | PDict d => negb (bool_decide (d = ∅))
  end.

(** [v.get(k, dflt)]: only a [dict] has the method *)
Definition get (v : pyval) (k : string) (dflt : pyval) : result pyval :=
  match v with
  | PDict d => Ok (default dflt (d !! k))
  | _ => Raise AttributeError
  end.

(** [v[k]] with a string key *)
Definition getitem (v : pyval) (k : string) : result pyval :=
  match v with
  | PDict d => Py.getitem d k
  | _ => Raise TypeError
  end.

(** the objects a [for] loop over [v] visits *)
Definition iter (v : pyval) : result (list pyval) :=
  match v with
  | PList l => Ok l
  | PDict d => Ok (PStr <$> elements (dom d))
  | PStr s => Ok ((fun c => PStr (String c "")) <$> list_ascii_of_string s)
  | _ => Raise TypeError
  end.

(** [v == s] for a string [s] *)
Definition eq_str (v : pyval) (s : string) : bool :=
  match v with
  | PStr s' => String.eqb s' s
  | _ => false
  end.

(** [isinstance(v, dict) and k in v] *)
Definition dict_has (v : pyval) (k : string) : bool :=
  match v with
  | PDict d => bool_decide (is_Some (d !! k))
  | _ => false
  end.

(** an optional string as an object, and its truth value *)
Definition of_opt (s : option string) : pyval :=
  match s with
  | Some s => PStr s
  | None => PNone
  end.

Definition given (s : option string) : bool := truthy (of_opt s).

End Val.

(** One HTTP round trip as the client asks for it: through the client's
    session ([self.session.request]) or through the [requests] module
    ([requests.get], [requests.post]). *)
Record http_call := HttpCall {
  via_session : bool;
  call_method : string;
  call_url : string;
  call_params : option dict;
  call_data : option dict;
  call_timeout : option Q
}.

(** What comes back: a response with its status code and the outcome of
    [response.json()], or an exception of the transport. *)
Inductive net_reply :=
  | Response (status_code : Z) (json : result pyval)
  | HTTPError (read : result pyval)
  | Fails (e : exn).

(** The remote side: the reply to a call, given the calls made before it. *)
Definition network := list http_call → http_call → net_reply.

(** Client code runs against the log of the calls made so far. *)
Definition io (A : Type) : Type := list http_call → result A * list http_call.

Definition io_ret {A} (a : A) : io A := fun log => (Ok a, log).

Definition io_bind {A B} (m : io A) (f : A → io B) : io B :=
  fun log =>
    match m log with
    | (Ok a, log') => f a log'
    | (Raise e, log') => (Raise e, log')
    end.

Definition raise {A} (e : exn) : io A := fun log => (Raise e, log).

Definition lift {A} (r : result A) : io A := fun log => (r, log).

Definition http (net : network) (c : http_call) : io net_reply :=
  fun log => (Ok (net log c), log ++ [c]).

#[global] Instance io_mret : MRet io := @io_ret.
#[global] Instance io_mbind : MBind io := fun A B f m => io_bind m f.

(** ** [GraphAPI] *)

Record GraphAPI := {
  access_token : option string;
  version : option string;
  timeout : option Q
}.

Definition host : string := "graph.facebook.com/".

(** [self.url], as [__init__] formats it *)
Definition url (g : GraphAPI) : string :=
  match version g with
  | Some v => if String.eqb v "" then "https://" +:+ host +:+ "/"
              else "https://" +:+ host +:+ v +:+ "/"
  | None => "https://" +:+ host +:+ "/"
  end.

(** lines 297-307 of [request]: the query parameters and the POST body after
    the token went in *)
Definition request_args (g : GraphAPI) (args post_args : option dict)
    : dict * option dict :=
  let args : dict := default ∅ args in
  let token := Val.of_opt (access_token g) in
  let into_args :=
    if bool_decide (is_Some (args !! "access_token")) then (args, post_args)
    else (<["access_token" := token]> args, post_args) in
  if Val.given (access_token g) then
    match post_args with
    | Some p =>
        if Val.truthy (PDict p) && negb (bool_decide (is_Some (p !! "access_token")))
        then (args, Some (<["access_token" := token]> p))
        else into_args
    | None => into_args
    end
  else (args, post_args).

(** [method or 'GET'], after [if post_args is not None: method='POST'] *)
Definition request_method (post_args : option dict) (method : option string) : string :=
  match post_args with
  | Some _ => "POST"
  | None => if Val.given method then default "GET" method else "GET"
  end.

Definition request_call (g : GraphAPI) (path : string) (args post_args : option dict)
    (method : option string) : http_call :=
  {| via_session := true;
     call_method := request_method post_args method;
     call_url := url g +:+ path;
     call_params := Some (request_args g args post_args).1;
     call_data := (request_args g args post_args).2;
     call_timeout := timeout g |}.

Section Client.

Variable net : network.

(** [str(v)] as [format] applies it to an object of the response *)
Variable str : pyval → string.

(** [GraphAPI.request] *)
Definition request (g : GraphAPI) (path : string) (args post_args : option dict)
    (method : option string) : io pyval :=
  reply ← http net (request_call g path args post_args method);
  match reply with
  | HTTPError read =>
      parsed ← lift read;
      let error_response := if Val.truthy parsed then parsed else PDict ∅ in
      e1 ← lift (Val.get error_response "error" (PDict ∅));
      type ← lift (Val.get e1 "type" PNone);
      e2 ← lift (Val.get error_response "error" (PDict ∅));
      message ← lift (Val.get e2 "message" PNone);
      raise (GraphAPIError type message)
  | Fails e => raise e
  | Response _ json =>
      result ← lift json;
      error ← lift (Val.get result "error" PNone);
      if Val.truthy error then
        error_response ← lift (Val.get result "error" PNone);
        type ← lift (Val.get error_response "type" PNone);
        message ← lift (Val.get error_response "message" PNone);
        raise (GraphAPIError type message)
      else mret result
  end.

Definition get_object (g : GraphAPI) (id : string) (args : dict) : io pyval :=
  request g id (Some args) None None.

Definition get_connections (g : GraphAPI) (id connection_name : string) (args : dict)
    : io pyval :=
  request g (id +:+ "/" +:+ connection_name) (Some args) None None.

Definition put_object (g : GraphAPI) (parent_object connection_name : string)
    (data : dict) : io pyval :=
  if Val.given (access_token g) then
    request g (parent_object +:+ "/" +:+ connection_name) None (Some data) (Some "POST")
  else raise (AssertionError "Write operations require an access token").

(** the parameters that are bound already when [**attachment] is unpacked
    into [self.put_object(profile_id, "feed", message=message, **attachment)] *)
Definition bound_parameters : list string :=
  ["self"; "parent_object"; "connection_name"; "message"].

(** a key of [attachment] names one of them: the call itself raises
    [TypeError] (multiple values for a keyword argument) *)
Definition keyword_clash (attachment : dict) : bool :=
  existsb (fun k => bool_decide (is_Some (attachment !! k))) bound_parameters.

Definition put_wall_post (g : GraphAPI) (message : pyval) (attachment : dict)
    (profile_id : string) : io pyval :=
  if keyword_clash attachment then raise TypeError
  else put_object g profile_id "feed" (<["message" := message]> attachment).

Definition put_comment (g : GraphAPI) (object_id : string) (message : pyval) : io pyval :=
  put_object g object_id "comments" {[ "message" := message ]}.

Definition put_like (g : GraphAPI) (object_id : string) : io pyval :=
  put_object g object_id "likes" ∅.

Definition delete_object (g : GraphAPI) (id : string) : io pyval :=
  request g id None None (Some "DELETE").

(** the loop of [get_page_access_token]: the token of the last account whose
    [id] is the page's *)
Fixpoint find_page_token (accounts : list pyval) (page_id : string) (found : pyval)
    : result pyval :=
  match accounts with
  | [] => Ok found
  | account :: rest =>
      match Val.getitem account "id" with
      | Ok i =>
          if Val.eq_str i page_id then
            match Val.getitem account "access_token" with
            | Ok t => find_page_token rest page_id t
            | Raise e => Raise e
            end
          else find_page_token rest page_id found
      | Raise e => Raise e
      end
  end.

Definition reply_response (reply : net_reply) : io (Z * result pyval) :=
  match reply with
  | Response status json => mret (status, json)
  | HTTPError _ => raise (TransportError "HTTPError")
  | Fails e => raise e
  end.

(** the [message] of the [error] of a decoded body:
    [body.get('error').get('message')] *)
Definition body_error_message (body : pyval) : result pyval :=
  match Val.get body "error" PNone with
  | Ok e => Val.get e "message" PNone
  | Raise e => Raise e
  end.

Definition accounts_call (g : GraphAPI) (fb_uid : string) : http_call :=
  {| via_session := false;
     call_method := "GET";
     call_url := url g +:+ fb_uid +:+ "/accounts";
     call_params := Some {[ "access_token" := Val.of_opt (access_token g) ]};
     call_data := None;
     call_timeout := None |}.

Definition get_page_access_token (g : GraphAPI) (page_id fb_uid : string)
    : io (pyval * pyval) :=
  reply ← http net (accounts_call g fb_uid);
  '(status, json) ← reply_response reply;
  account_data ← lift json;
  if negb (status =? 200) then
    message ← lift (body_error_message account_data);
    mret (PNone, message)
  else
    accounts ← lift (Val.get account_data "data" PNone);
    items ← lift (Val.iter accounts);
    token ← lift (find_page_token items page_id PNone);
    mret (token, PNone).

(** the page token of [put_event]: looked up when a page and a user are
    given *)
Definition page_token (g : GraphAPI) (page_id fb_uid : option string)
    : io (pyval * pyval) :=
  if Val.given page_id && Val.given fb_uid
  then get_page_access_token g (default "" page_id) (default "" fb_uid)
  else mret (PNone, PNone).

Definition picture_call (g : GraphAPI) (page_access_token picture id : pyval)
    : http_call :=
  {| via_session := false;
     call_method := "POST";
     call_url := url g +:+ str id +:+ "/";
     call_params := None;
     call_data :=
       Some (<["access_token" := if Val.truthy page_access_token
                                 then page_access_token
                                 else Val.of_opt (access_token g)]>
               {[ "cover_url" := picture ]});
     call_timeout := None |}.

(** the part of [put_event] under [if 'picture' in data and ...]: the page
    token, then the upload of the picture *)
Definition put_event_picture (g : GraphAPI) (page_id fb_uid : option string)
    (data : dict) (response : pyval) : io (pyval * pyval) :=
  '(page_access_token, error_message) ← page_token g page_id fb_uid;
  if Val.truthy error_message then mret (response, error_message)
  else
    picture ← lift (Py.getitem data "picture");
    id ← lift (Val.getitem response "id");
    reply ← http net (picture_call g page_access_token picture id);
    '(status, json) ← reply_response reply;
    if negb (status =? 200) then
      json_response ← lift json;
      message ← lift (body_error_message json_response);
      mret (response, message)
    else mret (response, PNone).

Definition event_path (id page_id : option string) : string :=
  if Val.given id then default "" id
  else if Val.given page_id then default "" page_id +:+ "/events"
  else "me/events".

(** [GraphAPI.put_event]; after [request], [data] is the keyword mapping as
    the token injection left it *)
Definition put_event (g : GraphAPI) (id page_id fb_uid : option string) (data : dict)
    : io (pyval * pyval) :=
  response ← request g (event_path id page_id) None (Some data) (Some "POST");
  let data := default data (request_args g None (Some data)).2 in
  if bool_decide (is_Some (data !! "picture")) && Val.dict_has response "id"
  then put_event_picture g page_id fb_uid data response
  else mret (response, PNone).

End Client.

(** ** The verifier as the specification words it

    Used only to compare with the definitions above. *)

(** "keep only the last value per key": the values a key has, in order *)
Definition values_of (k : string) (pairs : list (string * string)) : list string :=
  omap (fun '(k', v) => if decide (k' = k) then Some v else None) pairs.

(** "strip one layer of surrounding quote characters": one quote at the
    front and one at the back go, where there is one *)
Fixpoint drop_last_quote (s : string) : string :=
  match s with
  | String a EmptyString => if Ascii.eqb a dquote then EmptyString else s
  | String a s' => String a (drop_last_quote s')
  | EmptyString => EmptyString
  end.

Definition strip_one_layer (s : string) : string :=
  drop_last_quote
    match s with
    | String a s' => if Ascii.eqb a dquote then s' else s
    | EmptyString => EmptyString
    end.

(** the payload of the specification: parse what one layer of quotes leaves,
    a later binding of a key replacing an earlier one *)
Definition one_layer_args (cookie : string) : gmap string string :=
  fold_left (fun (m : gmap string string) '(k, v) => <[k := v]> m)
    (Cgi.parse_qsl (strip_one_layer cookie)) ∅.

(** "an &-delimited, =-delimited query string": the text of a list of
    pairs, and the names and values that need no escaping *)
Fixpoint query_of (pairs : list (string * string)) : string :=
  match pairs with
  | [] => ""
  | (k, v) :: rest =>
      k +:+ String "=" v +:+
      match rest with
      | [] => ""
      | _ => String "&" (query_of rest)
      end
  end.

Definition plain_name (k : string) : bool :=
  negb (Str.occurs "&" k || Str.occurs ";" k || Str.occurs "=" k
        || Str.occurs "%" k || Str.occurs "+" k).

Definition plain_value (v : string) : bool :=
  negb (Str.occurs "&" v || Str.occurs ";" v || Str.occurs "%" v
        || Str.occurs "+" v)
  && negb (String.eqb v "").

(** "a decimal integer string": optional surrounding whitespace, an optional
    sign, one or more decimal digits *)
Definition decimal_integer_string (s : string) : Prop :=
  ∃ sign ds : string,
    Py.strip_ws s = sign +:+ ds ∧ (sign = "" ∨ sign = "+" ∨ sign = "-") ∧
    ds ≠ "" ∧ Forall (fun c => is_Some (Py.digit c)) (list_ascii_of_string ds).

(** the texts [int()] takes, spelled out: as above, but whitespace may stand
    between a sign and the digits *)
Definition int_text (s : string) : Prop :=
  ∃ sign gap ds : string,
    Py.strip_ws s = sign +:+ gap +:+ ds ∧
    (sign = "" ∧ gap = "" ∨ sign = "+" ∨ sign = "-") ∧
    Forall (fun c => Py.is_space c = true) (list_ascii_of_string gap) ∧
    ds ≠ "" ∧ Forall (fun c => is_Some (Py.digit c)) (list_ascii_of_string ds).

(** the token injection as the specification words it: the POST body is
    preferred "if present and lacking a token already" *)
Definition prefer_post_body (g : GraphAPI) (args post_args : option dict)
    : dict * option dict :=
  let args : dict := default ∅ args in
  let token := Val.of_opt (access_token g) in
  match post_args with
  | Some p =>
      if bool_decide (is_Some (p !! "access_token"))
      then if bool_decide (is_Some (args !! "access_token")) then (args, post_args)
           else (<["access_token" := token]> args, post_args)
      else (args, Some (<["access_token" := token]> p))
  | None =>
      if bool_decide (is_Some (args !! "access_token")) then (args, post_args)
      else (<["access_token" := token]> args, post_args)
  end.

(** ** Sample inputs *)

(** a cookie value in two layers of quotes *)
Definition double_quoted (s : string) : string :=
  String dquote (String dquote (s +:+ String dquote (String dquote ""))).

(** a client on the unversioned host, with or without a token *)
Definition client (token : option string) : GraphAPI :=
  {| access_token := token; version := None; timeout := None |}.

(** A service that creates the event and refuses the picture. *)
Definition picture_refused : network := fun _ c =>
  if via_session c then Response 200 (Ok (PDict {[ "id" := PStr "42" ]}))
  else Response 400
         (Ok (PDict {[ "error" := PDict {[ "type" := PStr "OAuthException";
                                            "message" := PStr "bad image" ]} ]})).


Definition str_of (v : pyval) : string :=
  match v with
  | PStr s => s
  | _ => ""
  end.

Definition party : dict :=
  {[ "name" := PStr "party"; "picture" := PStr "http://example.com/p.jpg" ]}.

(** accounts of a user: two pages, the first listed twice *)
Definition account (id token : string) : pyval :=
  PDict {[ "id" := PStr id; "access_token" := PStr token ]}.

Definition accounts_listed : network := fun _ _ =>
  Response 200
    (Ok (PDict {[ "data" := PList [account "p1" "old"; account "p2" "other";
                                   account "p1" "new"] ]})).

(** the same list with an entry that has no [id] at its end *)
Definition accounts_broken : network := fun _ _ =>
  Response 200
    (Ok (PDict {[ "data" := PList [account "p1" "old";
                                   PDict {[ "name" := PStr "nameless" ]}] ]})).

(** a service that creates the event and refuses the lookup of the page's
    accounts, with a message or without *)
Definition lookup_refused (error : dict) : network := fun _ c =>
  if via_session c then Response 200 (Ok (PDict {[ "id" := PStr "42" ]}))
  else if String.eqb (call_method c) "GET"
       then Response 403 (Ok (PDict {[ "error" := PDict error ]}))
       else Response 200 (Ok (PDict {[ "success" := PBool true ]})).

(** ** The call log only grows *)

Definition grows {A} (m : io A) : Prop :=
  ∀ log, ∃ rest, (m log).2 = log ++ rest.

(** ** Lowercase hexadecimal text *)

Definition is_hex (c : ascii) : bool :=
  let n := N_of_ascii c in
  (((48 <=? n) && (n <=? 57)) || ((97 <=? n) && (n <=? 102)))%N.

Fixpoint all_hex (s : string) : bool :=
  match s with
  | EmptyString => true
  | String a s' => is_hex a && all_hex s'
  end.

(** ** More of [GraphAPI] *)

(** [sep.join(l)] *)
Fixpoint join_with (sep : string) (l : list string) : string :=
  match l with
  | [] => ""
  | [x] => x
  | x :: rest => x +:+ sep +:+ join_with sep rest
  end.

(** [GraphAPI.get_objects]: [args["ids"] = ",".join(ids)], then the request
    to the root path *)
Definition get_objects (net : network) (g : GraphAPI) (ids : list string)
    (args : dict) : io pyval :=
  request net g "" (Some (<["ids" := PStr (join_with "," ids)]> args)) None None.

(** the tokens of the accounts whose [id] is the page's, in order *)
Definition matching_tokens (page_id : string) (accounts : list pyval) : list pyval :=
  omap (fun account =>
          match account with
          | PDict d =>
              match d !! "id" with
              | Some i => if Val.eq_str i page_id then d !! "access_token" else None
              | None => None
              end
          | _ => None
          end)
       accounts.

(** an account as the loop of [get_page_access_token] needs it: an object
    with an [id], and with an [access_token] when the [id] is the page's *)
Definition account_ok (page_id : string) (account : pyval) : Prop :=
  ∃ (d : dict) i,
    account = PDict d ∧ d !! "id" = Some i ∧
    (Val.eq_str i page_id = true → is_Some (d !! "access_token")).

(** at most [n] round trips *)
Definition calls_within (n : nat) {A} (m : io A) : Prop :=
  ∀ log, ∃ rest, (m log).2 = log ++ rest ∧ (length rest ≤ n)%nat.

(** ** [GraphAPI.get_permissions] *)

(** What a [dict] is keyed by: Python keeps one entry for keys that are equal,
    and [True], [1] and [1.0] are; a list or a dict cannot be a key. *)
Inductive pykey :=
  | KNone
  | KNum (x : Qc)
  | KStr (s : string).

#[global] Instance pykey_eq_dec : EqDecision pykey.
Proof. solve_decision. Defined.

#[global] Instance pykey_countable : Countable pykey :=
  inj_countable'
    (fun k => match k with
              | KNone => inl ()
              | KNum x => inr (inl x)
              | KStr s => inr (inr s)
              end)
    (fun e => match e with
              | inl _ => KNone
              | inr (inl x) => KNum x
              | inr (inr s) => KStr s
              end)
    ltac:(by intros []).

(** the key an object makes; [TypeError] for the unhashable *)
Definition key_of (v : pyval) : result pykey :=
  match v with
  | PNone => Ok KNone
  | PBool b => Ok (KNum (Q2Qc (if b then 1 else 0)))
  | PInt z => Ok (KNum (Q2Qc (inject_Z z)))
  | PFloat x => Ok (KNum (Q2Qc x))
  | PStr s => Ok (KStr s)
  | PList _ => Raise TypeError
  | PDict _ => Raise TypeError
  end.

(** the body of the loop of [get_permissions]: the right-hand side
    ([permission['status'] == 'granted']) is evaluated before the subscript
    ([permission['permission']]) *)
Definition add_permission (perms : gmap pykey bool) (permission : pyval)
    : result (gmap pykey bool) :=
  status ← Val.getitem permission "status";
  name ← Val.getitem permission "permission";
  key ← key_of name;
  Ok (<[key := Val.eq_str status "granted"]> perms).

Fixpoint fill_permissions (perms : gmap pykey bool) (listing : list pyval)
    : result (gmap pykey bool) :=
  match listing with
  | [] => Ok perms
  | permission :: rest =>
      match add_permission perms permission with
      | Ok perms' => fill_permissions perms' rest
      | Raise e => Raise e
      end
  end.

(** [GraphAPI.get_permissions]; the [args] it builds are not passed on *)
Definition get_permissions (net : network) (g : GraphAPI) (id : string)
    : io (gmap pykey bool) :=
  data ← request net g (id +:+ "/permissions") None None None;
  listing ← lift (Val.get data "data" PNone);
  items ← lift (Val.iter listing);
  lift (fill_permissions ∅ items).

(** a record of the listing: an object with a string [permission] and a
    [status] *)
Definition permission_record (record : pyval) (entry : string * pyval) : Prop :=
  ∃ d : dict,
    record = PDict d ∧ d !! "permission" = Some (PStr entry.1) ∧
    d !! "status" = Some entry.2.

(** the statuses listed for a permission, in order *)
Definition statuses_of (name : string) (entries : list (string * pyval)) : list pyval :=
  omap (fun '(n, st) => if decide (n = name) then Some st else None) entries.

(** a listing of two permissions, one granted and one declined *)
Definition permission (name status : string) : pyval :=
  PDict {[ "permission" := PStr name; "status" := PStr status ]}.

Definition permissions_listed : network := fun _ _ =>
  Response 200
    (Ok (PDict {[ "data" := PList [permission "email" "granted";
                                   permission "user_friends" "declined"] ]})).

(** a listing whose second record has no [status], and an answer with no
    [data] *)
Definition permissions_broken : network := fun _ _ =>
  Response 200
    (Ok (PDict {[ "data" := PList [permission "email" "granted";
                                   PDict {[ "permission" := PStr "user_friends" ]}] ]})).

Definition no_listing : network := fun _ _ =>
  Response 200 (Ok (PDict {[ "success" := PBool true ]})).

(** ** [FQLAPI] *)

Module Fql.

(** the characters [urllib.quote] leaves alone: letters, digits and [_.-] *)
Definition always_safe (c : ascii) : bool :=
  let n := N_of_ascii c in
  (((48 <=? n) && (n <=? 57)) || ((65 <=? n) && (n <=? 90))
   || ((97 <=? n) && (n <=? 122)) || (n =? 95) || (n =? 46) || (n =? 45))%N.

Definition hex_upper (n : N) : ascii :=
  ascii_of_N (if (n <? 10)%N then 48 + n else 55 + n).

(** ['%{:02X}'.format(ord(c))] *)
Definition escape (c : ascii) : string :=
  let n := N_of_ascii c in
  String "%" (String (hex_upper (n / 16)) (String (hex_upper (n mod 16)) "")).

(** what [quote_plus] makes of one character: a space becomes [+], a
    character that is not safe its escape *)
Definition quote_char (c : ascii) : string :=
  if always_safe c then String c ""
  else if Ascii.eqb c " " then "+"
  else escape c.

(** [urllib.quote_plus(s)] *)
Fixpoint quote_plus (s : string) : string :=
  match s with
  | EmptyString => EmptyString
  | String c s' => quote_char c +:+ quote_plus s'
  end.

Definition endpoint : string := "https://api.facebook.com/method/fql.query".

Definition query_string (token query : string) : string :=
  "access_token=" +:+ quote_plus token +:+ "&format=json&query=" +:+ quote_plus query.

(** what a call of [FQLAPI.request] comes to: a value, the module's
    [FQLAPIError], or another exception *)
Inductive outcome :=
  | Returned (v : pyval)
  | FQLAPIError (type message : pyval)
  | Raised (e : exn).

(** [urlopen] on a URL: an exception, or a file whose text [_parse_json]
    decodes or rejects *)
Definition opener := string → result (result pyval).

(** lines 453-456: the decoded response becomes an error or the result *)
Definition answer (response : pyval) : outcome :=
  match response with
  | PDict d =>
      if Val.truthy (default PNone (d !! "error_code")) then
        match d !! "error_code", d !! "error_msg" with
        | Some code, Some msg => FQLAPIError code msg
        | None, _ => Raised (KeyError "error_code")
        | _, None => Raised (KeyError "error_msg")
        end
      else Returned response
  | _ => Returned response
  end.

(** [FQLAPI.request], with the URLs it opened; [quote_plus(None)] is a
    [TypeError] *)
Definition request (urlopen : opener) (access_token : option string) (query : string)
    : outcome * list string :=
  match access_token with
  | None => (Raised TypeError, [])
  | Some token =>
      let target := endpoint +:+ "?" +:+ query_string token query in
      (match urlopen target with
       | Ok (Ok response) => answer response
       | Ok (Raise e) => Raised e
       | Raise e => Raised e
       end,
       [target])
  end.

(** [FQLAPI.query] *)
Definition query (urlopen : opener) (access_token : option string) (text : string)
    : outcome * list string :=
  request urlopen access_token text.

End Fql.

(** ** [GraphAPI.multipart_request] *)

Module Multipart.

Definition crlf : string := String "013" (String "010" "").

(** what [connection.request] is given *)
Record call := Call {
  mp_method : string;
  mp_path : string;
  mp_body : string;
  mp_headers : gmap string string
}.

(** the connection: an exception of [request], [getresponse] or [read], or
    the outcome of [_parse_json] on the text read *)
Definition connection := call → result (result pyval).

Section Request.

(** the 31 letters [random.choice] draws *)
Variable boundary : string.

(** [mimetypes.guess_type(filename)[0]] *)
Variable guess_type : string → option string.

(** [str(value)] *)
Variable str : pyval → string.

(** the order in which [d.items()] runs over a [dict] *)
Variable items : ∀ V, gmap string V → list (string * V).

Variable net : connection.

Definition get_content_type (filename : string) : string :=
  match guess_type filename with
  | Some t => if String.eqb t "" then "application/octet-stream" else t
  | None => "application/octet-stream"
  end.

Definition encode_field (field_name : string) (value : pyval) : list string :=
  ["--" +:+ boundary;
   "Content-Disposition: form-data; name=" +:+ String dquote (field_name +:+ String dquote "");
   "";
   str value].

Definition encode_file (filename value : string) : list string :=
  ["--" +:+ boundary;
   "Content-Disposition: form-data; filename="
     +:+ String dquote (filename +:+ String dquote "");
   "Content-Type: " +:+ get_content_type filename;
   "";
   value].

Definition encode_lines (post_args : dict) (files : gmap string string) : list string :=
  flat_map (fun '(field_name, value) => encode_field field_name value)
    (items pyval post_args)
  ++ flat_map (fun '(filename, value) => encode_file filename value)
       (items string files)
  ++ ["--" +:+ boundary +:+ "--"; ""].

(** [__encode_multipart_data]: [None.items()] is an [AttributeError] *)
Definition encode_multipart_data (post_args : option dict)
    (files : option (gmap string string)) : result (string * gmap string string) :=
  match post_args, files with
  | Some p, Some f =>
      let body := join_with crlf (encode_lines p f) in
      Ok (body,
          {[ "content-type" := "multipart/form-data; boundary=" +:+ boundary;
             "content-length" := pretty (String.length body) ]})
  | _, _ => Raise AttributeError
  end.

(** [urllib.urlencode(args)] *)
Definition urlencode (args : dict) : string :=
  join_with "&"
    ((fun '(k, v) => Fql.quote_plus k +:+ "=" +:+ Fql.quote_plus (str v))
       <$> items pyval args).

(** lines 373-378: the token goes in, over whatever was there *)
Definition multipart_args (g : GraphAPI) (args post_args : option dict)
    : dict * option dict :=
  let args : dict := default ∅ args in
  if Val.given (access_token g) then
    match post_args with
    | Some p => (args, Some (<["access_token" := Val.of_opt (access_token g)]> p))
    | None => (<["access_token" := Val.of_opt (access_token g)]> args, None)
    end
  else (args, post_args).

(** ["POST" if post_args or files else "GET"] *)
Definition multipart_method (post_args : option dict)
    (files : option (gmap string string)) : string :=
  if match post_args with
     | Some p => negb (bool_decide (p = ∅))
     | None => false
     end
     || match files with
        | Some f => negb (bool_decide (f = ∅))
        | None => false
        end
  then "POST" else "GET".

(** lines 391-394: the decoded response becomes an error or the result *)
Definition multipart_response (response : pyval) : result pyval :=
  match response with
  | PDict d =>
      if Val.truthy (default PNone (d !! "error")) then
        error ← Py.getitem d "error";
        type ← Val.getitem error "type";
        message ← Val.getitem error "message";
        Raise (GraphAPIError type message)
      else Ok response
  | _ => Ok response
  end.

(** [GraphAPI.multipart_request], with the calls it made; the body and the
    headers are encoded before [connection.request] is entered *)
Definition multipart_request (g : GraphAPI) (path : string)
    (args post_args : option dict) (files : option (gmap string string))
    : result pyval * list call :=
  let sent := multipart_args g args post_args in
  match encode_multipart_data sent.2 files with
  | Raise e => (Raise e, [])
  | Ok (body, headers) =>
      let c := {| mp_method := multipart_method sent.2 files;
                  mp_path := path +:+ "?" +:+ urlencode sent.1;
                  mp_body := body;
                  mp_headers := headers |} in
      (match net c with
       | Ok (Ok response) => multipart_response response
       | Ok (Raise e) => Raise e
       | Raise e => Raise e
       end,
       [c])
  end.

End Request.

End Multipart.

(** * Verification *)

(** ** The library models on known values *)

Example md5_empty : MD5.hexdigest "" = "d41d8cd98f00b204e9800998ecf8427e".
Proof. vm_compute. reflexivity. Qed.

Example md5_abc : MD5.hexdigest "abc" = "900150983cd24fb0d6963f7d28e17f72".
Proof. vm_compute. reflexivity. Qed.

Example md5_two_blocks :
  MD5.hexdigest
    "xxxxxxxxxxxxxxxxxxxxxxxxxxxxxxxxxxxxxxxxxxxxxxxxxxxxxxxxxxxxxxxxxxxxxx"
  = "7d56c0f83fd1e320d60ea2f13dfdeedd".
Proof. vm_compute. reflexivity. Qed.

Example parse_qsl_repeated :
  Cgi.parse_qsl "b=2&a=1&sig=X&a=3" = [("b", "2"); ("a", "1"); ("sig", "X"); ("a", "3")].
Proof. reflexivity. Qed.

Example parse_qsl_escapes :
  Cgi.parse_qsl "c=%41+b&d&e=&=f&%zz=%4&a%3Db=1"
  = [("c", "A b"); ("", "f"); ("%zz", "%4"); ("a=b", "1")].
Proof. reflexivity. Qed.

Example parse_qsl_equals : Cgi.parse_qsl "a=b=c&&x==&" = [("a", "b=c"); ("x", "=")].
Proof. reflexivity. Qed.

Example split_fields : Str.split "&" "a&&b&" = ["a"; ""; "b"; ""].
Proof. reflexivity. Qed.

Example strip_inner_quote :
  Str.strip dquote (double_quoted ("a" +:+ String dquote "b")) = "a" +:+ String dquote "b".
Proof. reflexivity. Qed.

Example int_padded : Py.int (String "009" " -12 ") = Ok (-12).
Proof. reflexivity. Qed.

Example int_spaced_sign : Py.int "- 5" = Ok (-5).
Proof. reflexivity. Qed.

Example int_two_signs : Py.int "-+5" = Raise ValueError.
Proof. reflexivity. Qed.

Example int_empty : Py.int "" = Raise ValueError.
Proof. reflexivity. Qed.

(** ** Query-string parsing: the last value of a key wins *)

Section Grouping.

Lemma values_of_cons k k' v pairs :
  values_of k ((k', v) :: pairs) =
  if decide (k' = k) then v :: values_of k pairs else values_of k pairs.
Proof. unfold values_of. simpl. by destruct (decide (k' = k)). Qed.

Lemma add_value_nonempty d nv :
  map_Forall (fun _ v => v ≠ []) d → map_Forall (fun _ v => v ≠ []) (Cgi.add_value d nv).
Proof.
  intros Hd. destruct nv as [name value]. simpl.
  destruct (d !! name) as [vs|] eqn:E; apply map_Forall_insert_2; auto.
  by destruct vs.
Qed.

Lemma add_value_lookup d name value k :
  last_item <$> Cgi.add_value d (name, value) !! k =
  if decide (name = k) then Some value else last_item <$> d !! k.
Proof.
  simpl. destruct (decide (name = k)) as [->|Hne].
  - destruct (d !! k) as [vs|] eqn:E; rewrite lookup_insert_eq; simpl; [|done].
    unfold last_item. by rewrite last_last.
  - by destruct (d !! name); rewrite lookup_insert_ne.
Qed.

Lemma fold_add_value pairs : ∀ d,
  map_Forall (fun _ v => v ≠ []) d →
  map_Forall (fun _ v => v ≠ []) (fold_left Cgi.add_value pairs d) ∧
  ∀ k, last_item <$> fold_left Cgi.add_value pairs d !! k =
       match last (values_of k pairs) with
       | Some v => Some v
       | None => last_item <$> d !! k
       end.
Proof.
  induction pairs as [|[name value] pairs IH]; intros d Hd; [done|].
  destruct (IH (Cgi.add_value d (name, value)) (add_value_nonempty _ _ Hd)) as [Hne Hl].
  split; [exact Hne|]. intros k.
  change (fold_left Cgi.add_value ((name, value) :: pairs) d)
    with (fold_left Cgi.add_value pairs (Cgi.add_value d (name, value))).
  rewrite Hl, add_value_lookup, values_of_cons.
  destruct (decide (name = k)); [|done].
  rewrite last_cons. by destruct (last (values_of k pairs)).
Qed.

End Grouping.

(** ** [strip]: what goes and what stays *)

Section Strip.

Variable c : ascii.

Lemma append_cons a s t : String a s +:+ t = String a (s +:+ t).
Proof. reflexivity. Qed.

Lemma append_empty_l s : "" +:+ s = s.
Proof. reflexivity. Qed.

Lemma append_empty_r s : s +:+ "" = s.
Proof. induction s as [|a s IH]; [done|]. by rewrite append_cons, IH. Qed.

Lemma append_assoc s t u : (s +:+ t) +:+ u = s +:+ t +:+ u.
Proof. induction s as [|a s IH]; [done|]. by rewrite !append_cons, IH. Qed.

Lemma lstrip_decompose s :
  ∃ n, s = Str.times c n +:+ Str.lstrip c s ∧ ∀ r, Str.lstrip c s ≠ String c r.
Proof.
  induction s as [|a s [n [IH1 IH2]]]; simpl.
  - exists 0%nat. by split.
  - destruct (Ascii.eqb a c) eqn:E.
    + apply Ascii.eqb_eq in E as ->. exists (S n). split; [|done].
      simpl. rewrite append_cons. by f_equal.
    + exists 0%nat. split; [done|]. intros r [= -> _].
      by rewrite Ascii.eqb_refl in E.
Qed.

Lemma rstrip_decompose s :
  ∃ n, s = Str.rstrip c s +:+ Str.times c n ∧
       ∀ r, Str.rstrip c s ≠ r +:+ String c "".
Proof.
  induction s as [|a s [n [IH1 IH2]]]; simpl.
  - exists 0%nat. split; [done|]. by intros [|??].
  - destruct (Str.rstrip c s) as [|b r'] eqn:R.
    + rewrite append_empty_l in IH1.
      destruct (Ascii.eqb a c) eqn:E.
      * apply Ascii.eqb_eq in E as ->. exists (S n). split.
        -- rewrite append_empty_l. simpl. by f_equal.
        -- by intros [|??].
      * exists n. split; [rewrite append_cons, append_empty_l; by f_equal|].
        intros [|x r]; rewrite ?append_cons, ?append_empty_l.
        -- intros [= ->]. by rewrite Ascii.eqb_refl in E.
        -- intros [= _ H]. by destruct r.
    + exists n. split; [rewrite append_cons; by f_equal|].
      intros [|x r]; rewrite ?append_cons, ?append_empty_l; [done|].
      intros [= _ H]. by apply (IH2 r).
Qed.

Lemma rstrip_head s r : (∀ r, s ≠ String c r) → Str.rstrip c s ≠ String c r.
Proof.
  destruct s as [|a s]; simpl; [done|]. intros H.
  destruct (Str.rstrip c s).
  - destruct (Ascii.eqb a c) eqn:E; [done|]. intros [= -> _]. by eapply H.
  - intros [= -> _]. by eapply H.
Qed.

Lemma strip_decompose s :
  ∃ n m, s = Str.times c n +:+ Str.strip c s +:+ Str.times c m ∧
         (∀ r, Str.strip c s ≠ String c r) ∧
         (∀ r, Str.strip c s ≠ r +:+ String c "").
Proof.
  destruct (lstrip_decompose s) as [n [H1 H2]].
  destruct (rstrip_decompose (Str.lstrip c s)) as [m [H3 H4]].
  exists n, m. unfold Str.strip. split; [by rewrite <- H3|].
  split; [|done]. intros r. by apply rstrip_head.
Qed.

End Strip.

(** ** Query strings: plain names and values parse back to themselves *)

Section Query.

Lemma occurs_append c s t :
  Str.occurs c (s +:+ t) = Str.occurs c s || Str.occurs c t.
Proof.
  induction s as [|a s IH]; [done|].
  rewrite append_cons. simpl. by rewrite IH, orb_assoc.
Qed.

Lemma split_free sep s : Str.occurs sep s = false → Str.split sep s = [s].
Proof.
  induction s as [|a s IH]; simpl; [done|].
  intros [Ha Hs]%orb_false_iff. by rewrite Ha, (IH Hs).
Qed.

Lemma split_append sep s t :
  Str.occurs sep s = false →
  Str.split sep (s +:+ String sep t) = s :: Str.split sep t.
Proof.
  induction s as [|a s IH]; simpl.
  - intros _. by rewrite Ascii.eqb_refl.
  - intros [Ha Hs]%orb_false_iff. by rewrite Ha, (IH Hs).
Qed.

Lemma split1_append sep s t :
  Str.occurs sep s = false → Str.split1 sep (s +:+ String sep t) = [s; t].
Proof.
  induction s as [|a s IH]; simpl.
  - intros _. by rewrite Ascii.eqb_refl.
  - intros [Ha Hs]%orb_false_iff. by rewrite Ha, (IH Hs).
Qed.

Lemma replace_free a b s : Str.occurs a s = false → Str.replace a b s = s.
Proof.
  induction s as [|c s IH]; simpl; [done|].
  intros [Ha Hs]%orb_false_iff. by rewrite Ha, (IH Hs).
Qed.

Lemma field_free s :
  Str.occurs "+" s = false → Str.occurs "%" s = false → Cgi.field s = s.
Proof.
  intros Hplus Hpct. unfold Cgi.field, Cgi.unquote.
  rewrite (replace_free _ _ _ Hplus), (split_free _ _ Hpct). simpl.
  change (s +:+ "" = s). apply append_empty_r.
Qed.

Lemma plain_name_spec k :
  plain_name k = true →
  Str.occurs "&" k = false ∧ Str.occurs ";" k = false ∧ Str.occurs "=" k = false ∧
  Str.occurs "%" k = false ∧ Str.occurs "+" k = false.
Proof.
  unfold plain_name. rewrite negb_true_iff, !orb_false_iff. tauto.
Qed.

Lemma plain_value_spec v :
  plain_value v = true →
  Str.occurs "&" v = false ∧ Str.occurs ";" v = false ∧
  Str.occurs "%" v = false ∧ Str.occurs "+" v = false ∧ v ≠ "".
Proof.
  unfold plain_value.
  rewrite andb_true_iff, !negb_true_iff, !orb_false_iff, String.eqb_neq. tauto.
Qed.

(** one field [k=v] of the query *)
Lemma parse_qsl_field k v :
  plain_name k = true → plain_value v = true →
  Cgi.parse_qsl (k +:+ String "=" v) = [(k, v)].
Proof.
  intros (Hk1 & Hk2 & Hk3 & Hk4 & Hk5)%plain_name_spec
         (Hv1 & Hv2 & Hv3 & Hv4 & Hv5)%plain_value_spec.
  unfold Cgi.parse_qsl.
  rewrite split_free by (rewrite occurs_append; simpl; by rewrite Hk1, Hv1).
  simpl. rewrite split_free by (rewrite occurs_append; simpl; by rewrite Hk2, Hv2).
  simpl. rewrite (split1_append _ _ _ Hk3), !field_free by done.
  destruct k, v; done.
Qed.

Lemma parse_qsl_cons k v rest :
  plain_name k = true → plain_value v = true →
  Cgi.parse_qsl (k +:+ String "=" (v +:+ String "&" rest))
  = (k, v) :: Cgi.parse_qsl rest.
Proof.
  intros Hk Hv. pose proof (parse_qsl_field k v Hk Hv) as Hfield.
  apply plain_name_spec in Hk as (Hk1 & _). apply plain_value_spec in Hv as (Hv1 & _).
  unfold Cgi.parse_qsl in *.
  assert (Hfree : Str.occurs "&" (k +:+ String "=" v) = false)
    by (rewrite occurs_append; simpl; by rewrite Hk1, Hv1).
  rewrite (split_free _ _ Hfree) in Hfield.
  change (k +:+ String "=" (v +:+ String "&" rest))
    with (k +:+ String "=" v +:+ String "&" rest).
  rewrite <- append_assoc, (split_append _ _ _ Hfree). simpl in *.
  rewrite flat_map_app, app_nil_r in *. by rewrite Hfield.
Qed.

Lemma parse_qsl_query_of pairs :
  Forall (fun kv => plain_name kv.1 = true ∧ plain_value kv.2 = true) pairs →
  Cgi.parse_qsl (query_of pairs) = pairs.
Proof.
  induction 1 as [|[k v] rest [Hk Hv] _ IH]; [done|].
  simpl in Hk, Hv. destruct rest as [|kv rest].
  - change (query_of [(k, v)]) with (k +:+ String "=" (v +:+ "")).
    rewrite append_empty_r. by apply parse_qsl_field.
  - change (query_of ((k, v) :: kv :: rest))
      with (k +:+ String "=" (v +:+ String "&" (query_of (kv :: rest)))).
    by rewrite parse_qsl_cons, IH.
Qed.

End Query.

(** ** The payload of a cookie *)

Lemma cookie_args_lookup (cookie : string) :
  ∃ args : gmap string string,
    cookie_args cookie = Ok args ∧
    ∀ k, args !! k = last (values_of k (Cgi.parse_qsl (Str.strip dquote cookie))).
Proof.
  unfold cookie_args, last_values, Cgi.parse_qs.
  destruct (fold_add_value (Cgi.parse_qsl (Str.strip dquote cookie)) ∅) as [Hne Hl].
  { apply map_Forall_empty. }
  rewrite decide_True by exact Hne.
  eexists; split; [reflexivity|]. intros k.
  rewrite lookup_fmap, Hl, lookup_empty.
  by destruct (last _).
Qed.

Lemma cookie_args_total (cookie : string) : ∃ args, cookie_args cookie = Ok args.
Proof. destruct (cookie_args_lookup cookie) as [args [H _]]. eauto. Qed.

(** C8 (as amended): [get_user_from_cookie] removes every leading and every
    trailing quote character of the cookie value (not one layer only), parses
    what is left as a query string, and keeps for each key the last of its
    values; that payload is what the function returns whenever it returns
    one. *)
Theorem cookie_args_last_value_wins (cookie : string) :
  ∃ (args : gmap string string) (n m : nat),
    cookie = Str.times dquote n +:+ Str.strip dquote cookie +:+ Str.times dquote m ∧
    (∀ r, Str.strip dquote cookie ≠ String dquote r) ∧
    (∀ r, Str.strip dquote cookie ≠ r +:+ String dquote "") ∧
    cookie_args cookie = Ok args ∧
    (∀ k, args !! k = last (values_of k (Cgi.parse_qsl (Str.strip dquote cookie)))) ∧
    ∀ now cookies app_id app_secret payload,
      cookies !! ("fbs_" +:+ app_id) = Some cookie →
      get_user_from_cookie now cookies app_id app_secret = Ok (Some payload) →
      payload = args.
Proof.
  destruct (cookie_args_lookup cookie) as [args [Hargs Hl]].
  destruct (strip_decompose dquote cookie) as [n [m [H1 [H2 H3]]]].
  exists args, n, m. repeat split; try done.
  intros now cookies app_id app_secret payload Hc.
  unfold get_user_from_cookie. rewrite Hc. simpl.
  destruct (decide (cookie = "")); [done|].
  rewrite Hargs. simpl.
  destruct (Py.getitem args "expires"); simpl; [|done].
  destruct (Py.int a); simpl; [|done].
  destruct (accepted _ _ _ _); congruence.
Qed.

(** C8, witness: a signed cookie in two layers of quotes with a repeated
    key. *)
Lemma cookie_args_last_value_wins_witness :
  ∃ args : gmap string string,
    args !! "uid" = Some "8" ∧
    get_user_from_cookie 5
      {[ "fbs_app" :=
           double_quoted
             "expires=0&uid=7&uid=8&sig=d22a5c5c20f4c950693576400dcdad36" ]}
      "app" "secret" = Ok (Some args).
Proof.
  destruct (cookie_args_last_value_wins
              (double_quoted
                 "expires=0&uid=7&uid=8&sig=d22a5c5c20f4c950693576400dcdad36"))
    as (args & n & m & _ & _ & _ & _ & Hl & Hp).
  exists args. split; [rewrite Hl; vm_compute; reflexivity|].
  assert (Hrun : ∃ p, get_user_from_cookie 5
      {[ "fbs_app" :=
           double_quoted
             "expires=0&uid=7&uid=8&sig=d22a5c5c20f4c950693576400dcdad36" ]}
      "app" "secret" = Ok (Some p)).
  { eexists. vm_compute. reflexivity. }
  destruct Hrun as [p Hrun]. rewrite Hrun. do 2 f_equal.
  eapply Hp; [|exact Hrun]. vm_compute. reflexivity.
Defined.

(** C8 (as stated) fails: of two layers of quotes the code removes both, so
    the payload is not the one that stripping a single layer gives. *)
Lemma strip_one_layer_refuted :
  cookie_args (double_quoted "a=1") = Ok {[ "a" := "1" ]} ∧
  one_layer_args (double_quoted "a=1")
    = {[ String dquote "a" := String "1" (String dquote "") ]} ∧
  cookie_args (double_quoted "a=1") ≠ Ok (one_layer_args (double_quoted "a=1")).
Proof.
  split; [vm_compute; reflexivity|].
  split; [vm_compute; reflexivity|].
  intros H. assert (Hk : ({[ "a" := "1" ]} : gmap string string) !! "a"
                         = one_layer_args (double_quoted "a=1") !! "a").
  { f_equal. revert H. vm_compute. congruence. }
  vm_compute in Hk. discriminate.
Qed.

(** ** The canonical signing string *)

Lemma StronglySorted_filter {A} (R : relation A) (P : A → Prop)
    `{∀ x, Decision (P x)} (l : list A) :
  StronglySorted R l → StronglySorted R (filter P l).
Proof.
  induction 1 as [|a l Hs IH Hall]; [constructor|].
  rewrite filter_cons. destruct (decide (P a)); [|exact IH].
  constructor; [exact IH|].
  apply Forall_forall. intros x Hx%list_elem_of_filter.
  rewrite Forall_forall in Hall. apply Hall. tauto.
Qed.

Lemma elem_of_sorted_keys (args : gmap string string) k :
  k ∈ sorted_keys args ↔ is_Some (args !! k).
Proof.
  unfold sorted_keys. rewrite merge_sort_Permutation, elem_of_elements.
  apply elem_of_dom.
Qed.

Lemma sorted_keys_sorted (args : gmap string string) :
  StronglySorted String.le (sorted_keys args).
Proof. apply StronglySorted_merge_sort; apply _. Qed.

Lemma sorted_keys_NoDup (args : gmap string string) : NoDup (sorted_keys args).
Proof.
  unfold sorted_keys. rewrite merge_sort_Permutation. apply NoDup_elements.
Qed.

(** C7: the signing string is the concatenation, with no separator, of
    [key=value] over the keys of the payload other than [sig], in
    lexicographic order of the keys, each key once; for [{b=2, a=1, sig=X}] it
    is ["a=1b=2"]. *)
Theorem signing_string_canonical (args : gmap string string) :
  (∃ kvs : list (string * string),
     signing_string args = Str.join ((fun '(k, v) => k +:+ "=" +:+ v) <$> kvs) ∧
     (∀ k v, (k, v) ∈ kvs ↔ args !! k = Some v ∧ k ≠ "sig") ∧
     StronglySorted String.le kvs.*1 ∧
     NoDup kvs.*1) ∧
  signing_string {[ "b" := "2"; "a" := "1"; "sig" := "X" ]} = "a=1b=2".
Proof.
  split; [|vm_compute; reflexivity].
  set (ks := filter (fun k => k ≠ "sig") (sorted_keys args)).
  assert (Hfst : ((fun k => (k, args !!! k)) <$> ks).*1 = ks).
  { rewrite <- list_fmap_compose. apply list_fmap_id. }
  exists ((fun k => (k, args !!! k)) <$> ks).
  split; [|split; [|split]].
  - unfold signing_string. fold ks. by rewrite <- list_fmap_compose.
  - intros k v. split.
    + intros [k' [[= -> ->] [Hne Hin]%list_elem_of_filter]]%list_elem_of_fmap.
      split; [|exact Hne].
      apply elem_of_sorted_keys in Hin as [v Hv].
      by rewrite (lookup_total_correct _ _ _ Hv).
    + intros [Hv Hne]. apply list_elem_of_fmap. exists k. split.
      * by rewrite (lookup_total_correct _ _ _ Hv).
      * apply list_elem_of_filter. split; [exact Hne|].
        apply elem_of_sorted_keys. eauto.
  - rewrite Hfst. apply StronglySorted_filter, sorted_keys_sorted.
  - rewrite Hfst. apply NoDup_filter, sorted_keys_NoDup.
Qed.

(** ** [int()] and the comparison with the clock *)

Lemma float_lt_int_spec (x : Q) (n : Z) :
  Py.float_lt_int x n = true ↔ Qlt x (inject_Z n).
Proof.
  unfold Py.float_lt_int. rewrite negb_true_iff.
  destruct (Qle_bool (inject_Z n) x) eqn:E.
  - apply Qle_bool_iff in E. split; [done|]. intros H.
    by apply Qlt_not_le in H.
  - split; [intros _|done]. apply Qnot_le_lt. intros H.
    apply Qle_bool_iff in H. congruence.
Qed.

Lemma digits_total ds : ∀ acc,
  Forall (fun c => is_Some (Py.digit c)) (list_ascii_of_string ds) →
  is_Some (Py.digits acc ds).
Proof.
  induction ds as [|c ds IH]; intros acc Hall; simpl; [eauto|].
  simpl in Hall. apply Forall_cons in Hall as [[d Hd] Hall].
  rewrite Hd. by apply IH.
Qed.

Lemma unsigned_total ds :
  ds ≠ "" → Forall (fun c => is_Some (Py.digit c)) (list_ascii_of_string ds) →
  is_Some (Py.unsigned ds).
Proof. destruct ds; [done|]. intros _ H. by apply digits_total. Qed.

Lemma literal_digit_head c s :
  is_Some (Py.digit c) → Py.literal (String c s) = Py.unsigned (String c s).
Proof.
  intros [d Hd]. revert Hd.
  destruct c as [[] [] [] [] [] [] [] []]; try reflexivity; vm_compute; discriminate.
Qed.

Lemma digit_not_space c : is_Some (Py.digit c) → Py.is_space c = false.
Proof.
  intros [d Hd]. revert Hd.
  destruct c as [[] [] [] [] [] [] [] []]; vm_compute; first [discriminate | by intros _].
Qed.

Lemma lstrip_ws_gap gap : ∀ rest,
  Forall (fun c => Py.is_space c = true) (list_ascii_of_string gap) →
  Py.lstrip_ws (gap +:+ rest) = Py.lstrip_ws rest.
Proof.
  induction gap as [|c gap IH]; intros rest Hall; [done|].
  simpl in Hall. apply Forall_cons in Hall as [Hc Hall].
  rewrite append_cons. simpl. rewrite Hc. by apply IH.
Qed.

Lemma lstrip_ws_digits ds :
  Forall (fun c => is_Some (Py.digit c)) (list_ascii_of_string ds) →
  Py.lstrip_ws ds = ds.
Proof.
  destruct ds as [|c ds]; [done|]. simpl.
  intros [Hc _]%Forall_cons. by rewrite (digit_not_space c Hc).
Qed.

Lemma lstrip_ws_decompose s :
  ∃ gap, s = gap +:+ Py.lstrip_ws s ∧
         Forall (fun c => Py.is_space c = true) (list_ascii_of_string gap).
Proof.
  induction s as [|c s (gap & Hs & Hgap)].
  - exists "". split; [done|constructor].
  - simpl. destruct (Py.is_space c) eqn:Hc.
    + exists (String c gap). split; [by rewrite append_cons, <- Hs|by constructor].
    + exists "". split; [done|constructor].
Qed.

(** [int()] takes exactly the texts of [int_text]. *)
Lemma int_accepts (s : string) : int_text s → ∃ z, Py.int s = Ok z.
Proof.
  intros (sign & gap & ds & Hs & Hsign & Hgap & Hne & Hall). unfold Py.int. rewrite Hs.
  destruct (unsigned_total ds Hne Hall) as [z Hz].
  destruct Hsign as [[-> ->]|[->| ->]].
  - rewrite !append_empty_l. destruct ds as [|c ds]; [done|].
    simpl in Hall. apply Forall_cons in Hall as [Hc _].
    rewrite (literal_digit_head _ _ Hc), Hz. eauto.
  - change (Py.literal ("+" +:+ gap +:+ ds))
      with (Py.unsigned (Py.lstrip_ws (gap +:+ ds))).
    rewrite lstrip_ws_gap, lstrip_ws_digits, Hz by done. eauto.
  - change (Py.literal ("-" +:+ gap +:+ ds))
      with (Z.opp <$> Py.unsigned (Py.lstrip_ws (gap +:+ ds))).
    rewrite lstrip_ws_gap, lstrip_ws_digits, Hz by done. simpl. eauto.
Qed.

Lemma decimal_integer_string_int_text s : decimal_integer_string s → int_text s.
Proof.
  intros (sign & ds & Hs & Hsign & Hne & Hall).
  exists sign, "", ds. rewrite append_empty_l.
  split; [done|]. split; [|split; [constructor|done]].
  destruct Hsign as [->|[->| ->]]; auto.
Qed.

Lemma digits_sound ds : ∀ acc z,
  Py.digits acc ds = Some z →
  Forall (fun c => is_Some (Py.digit c)) (list_ascii_of_string ds).
Proof.
  induction ds as [|c ds IH]; intros acc z H; simpl in *; [constructor|].
  destruct (Py.digit c) as [d|] eqn:Hd; [|done].
  constructor; [eauto|]. by eapply IH.
Qed.

Lemma unsigned_sound ds z :
  Py.unsigned ds = Some z →
  ds ≠ "" ∧ Forall (fun c => is_Some (Py.digit c)) (list_ascii_of_string ds).
Proof.
  destruct ds as [|c ds]; [done|]. intros H. split; [done|].
  by eapply digits_sound.
Qed.

Lemma literal_unsigned_head c s :
  c ≠ "+"%char → c ≠ "-"%char → Py.literal (String c s) = Py.unsigned (String c s).
Proof.
  destruct c as [[] [] [] [] [] [] [] []]; try reflexivity; intros H1 H2;
    exfalso; first [by apply H1 | by apply H2].
Qed.

Lemma literal_sound t z :
  Py.literal t = Some z →
  ∃ sign gap ds : string,
    t = sign +:+ gap +:+ ds ∧
    (sign = "" ∧ gap = "" ∨ sign = "+" ∨ sign = "-") ∧
    Forall (fun c => Py.is_space c = true) (list_ascii_of_string gap) ∧
    ds ≠ "" ∧ Forall (fun c => is_Some (Py.digit c)) (list_ascii_of_string ds).
Proof.
  destruct t as [|c s]; [done|].
  destruct (lstrip_ws_decompose s) as (gap & Hs & Hgap).
  destruct (decide (c = "+"%char)) as [->|Hp].
  { change (Py.literal (String "+" s)) with (Py.unsigned (Py.lstrip_ws s)).
    intros [? ?]%unsigned_sound. exists "+", gap, (Py.lstrip_ws s).
    split; [|auto].
    change (String "+" s = String "+" (gap +:+ Py.lstrip_ws s)). by f_equal. }
  destruct (decide (c = "-"%char)) as [->|Hm].
  { change (Py.literal (String "-" s)) with (Z.opp <$> Py.unsigned (Py.lstrip_ws s)).
    destruct (Py.unsigned (Py.lstrip_ws s)) as [u|] eqn:Hu; [|done].
    intros _. apply unsigned_sound in Hu as [? ?]. exists "-", gap, (Py.lstrip_ws s).
    split; [|auto].
    change (String "-" s = String "-" (gap +:+ Py.lstrip_ws s)). by f_equal. }
  rewrite literal_unsigned_head by done.
  intros [? ?]%unsigned_sound. exists "", "", (String c s).
  split; [done|]. split; [auto|]. split; [constructor|done].
Qed.

Lemma int_rejects (s : string) : ¬ int_text s → Py.int s = Raise ValueError.
Proof.
  intros Hn. unfold Py.int.
  destruct (Py.literal (Py.strip_ws s)) as [z|] eqn:E; [|done].
  destruct Hn. by eapply literal_sound.
Qed.

(** ** The verdict of [get_user_from_cookie] *)

Lemma accepted_spec now sig (args : gmap string string) expires :
  accepted now sig args expires = true ↔
  args !! "sig" = Some sig ∧ (expires = 0 ∨ Qlt now (inject_Z expires)).
Proof.
  unfold accepted.
  rewrite andb_true_iff, orb_true_iff, bool_decide_eq_true, Z.eqb_eq,
    float_lt_int_spec.
  intuition congruence.
Qed.

Lemma get_user_from_cookie_absent now (cookies : gmap string string) app_id app_secret :
  default "" (cookies !! ("fbs_" +:+ app_id)) = "" →
  get_user_from_cookie now cookies app_id app_secret = Ok None.
Proof. intros H. unfold get_user_from_cookie. rewrite H. done. Qed.

Lemma get_user_from_cookie_unfold now (cookies : gmap string string)
    app_id app_secret cookie args :
  cookies !! ("fbs_" +:+ app_id) = Some cookie → cookie ≠ "" →
  cookie_args cookie = Ok args →
  get_user_from_cookie now cookies app_id app_secret =
    text ← Py.getitem args "expires";
    expires ← Py.int text;
    if accepted now (MD5.hexdigest (signing_string args +:+ app_secret)) args expires
    then Ok (Some args) else Ok None.
Proof.
  intros Hc Hne Hargs. unfold get_user_from_cookie. rewrite Hc. simpl.
  rewrite decide_False by done. by rewrite Hargs.
Qed.

(** C1 (as amended): when the named cookie is non-empty and its payload has
    an [expires] value that [int()] accepts, [get_user_from_cookie] returns
    the payload exactly when the [sig] field is the MD5 hex digest of the
    signing string followed by the secret and [expires] is zero or the clock
    is strictly before it, and returns [None] exactly when not.  (A payload
    without [expires], or with one [int()] rejects, raises instead.) *)
Theorem get_user_from_cookie_verdict now (cookies : gmap string string)
    app_id app_secret cookie args text expires :
  cookies !! ("fbs_" +:+ app_id) = Some cookie → cookie ≠ "" →
  cookie_args cookie = Ok args →
  args !! "expires" = Some text → Py.int text = Ok expires →
  (get_user_from_cookie now cookies app_id app_secret = Ok (Some args) ↔
     args !! "sig" = Some (MD5.hexdigest (signing_string args +:+ app_secret)) ∧
     (expires = 0 ∨ Qlt now (inject_Z expires))) ∧
  (get_user_from_cookie now cookies app_id app_secret = Ok None ↔
     ¬ (args !! "sig" = Some (MD5.hexdigest (signing_string args +:+ app_secret)) ∧
        (expires = 0 ∨ Qlt now (inject_Z expires)))).
Proof.
  intros Hc Hne Hargs Ht Hint.
  rewrite (get_user_from_cookie_unfold _ _ _ _ _ _ Hc Hne Hargs).
  unfold Py.getitem. rewrite Ht. simpl. rewrite Hint. simpl.
  rewrite <- accepted_spec.
  destruct (accepted _ _ _ _); split; split; try done; by intros [].
Qed.

(** C1, witness: a correctly signed, unexpired cookie is let through, and
    the same cookie one second after its expiry is not. *)
Lemma get_user_from_cookie_verdict_witness :
  get_user_from_cookie 99
    {[ "fbs_app" := "expires=100&uid=7&sig=992a13397fe4ec89308949763d391e42" ]}
    "app" "secret"
  = Ok (Some {[ "expires" := "100"; "uid" := "7";
                "sig" := "992a13397fe4ec89308949763d391e42" ]}) ∧
  get_user_from_cookie 101
    {[ "fbs_app" := "expires=100&uid=7&sig=992a13397fe4ec89308949763d391e42" ]}
    "app" "secret"
  = Ok None.
Proof.
  split.
  - apply (get_user_from_cookie_verdict 99
             {[ "fbs_app" := "expires=100&uid=7&sig=992a13397fe4ec89308949763d391e42" ]}
             "app" "secret"
             "expires=100&uid=7&sig=992a13397fe4ec89308949763d391e42"
             {[ "expires" := "100"; "uid" := "7";
                "sig" := "992a13397fe4ec89308949763d391e42" ]}
             "100" 100); try (vm_compute; reflexivity); [discriminate|].
    split; [vm_compute; reflexivity|]. right. reflexivity.
  - apply (get_user_from_cookie_verdict 101
             {[ "fbs_app" := "expires=100&uid=7&sig=992a13397fe4ec89308949763d391e42" ]}
             "app" "secret"
             "expires=100&uid=7&sig=992a13397fe4ec89308949763d391e42"
             {[ "expires" := "100"; "uid" := "7";
                "sig" := "992a13397fe4ec89308949763d391e42" ]}
             "100" 100); try (vm_compute; reflexivity); [discriminate|].
    intros [_ [H|H]]; [discriminate|]. vm_compute in H. discriminate.
Defined.

(** C1 (as stated) fails: a non-empty cookie whose payload has no [expires]
    makes the function raise, which is neither the payload nor [None]. *)
Lemma get_user_from_cookie_not_total :
  get_user_from_cookie 5 {[ "fbs_app" := "uid=7" ]} "app" "secret"
    = Raise (KeyError "expires") ∧
  get_user_from_cookie 5 {[ "fbs_app" := "uid=7" ]} "app" "secret" ≠ Ok None ∧
  ∀ payload,
    get_user_from_cookie 5 {[ "fbs_app" := "uid=7" ]} "app" "secret"
      ≠ Ok (Some payload).
Proof.
  assert (H : get_user_from_cookie 5 {[ "fbs_app" := "uid=7" ]} "app" "secret"
              = Raise (KeyError "expires")) by (vm_compute; reflexivity).
  rewrite H. repeat split; [discriminate|]. intros payload. discriminate.
Qed.

(** C9 (as amended): when the payload's [expires] value is not a text that
    [int()] takes (optional surrounding whitespace, an optional sign that
    whitespace may follow, one or more decimal digits) the call raises
    [ValueError]; no default expiry is put in its place and nothing is
    returned. *)
Theorem non_integer_expires_raises now (cookies : gmap string string)
    app_id app_secret cookie args text :
  cookies !! ("fbs_" +:+ app_id) = Some cookie → cookie ≠ "" →
  cookie_args cookie = Ok args →
  args !! "expires" = Some text → ¬ int_text text →
  get_user_from_cookie now cookies app_id app_secret = Raise ValueError.
Proof.
  intros Hc Hne Hargs Ht Hbad.
  rewrite (get_user_from_cookie_unfold _ _ _ _ _ _ Hc Hne Hargs).
  unfold Py.getitem. rewrite Ht. simpl. by rewrite (int_rejects _ Hbad).
Qed.

Lemma soon_not_int_text : ¬ int_text "soon".
Proof.
  intros (sign & gap & ds & Hs & Hsign & _ & Hne & Hall).
  change (Py.strip_ws "soon") with "soon" in Hs.
  destruct Hsign as [[-> ->]|[->| ->]]; [|discriminate..].
  rewrite !append_empty_l in Hs. subst ds. simpl in Hall.
  apply Forall_cons in Hall as [[d Hd] _]. vm_compute in Hd. discriminate.
Qed.

(** C9, witness: a correctly signed cookie with [expires=soon]. *)
Lemma non_integer_expires_raises_witness :
  get_user_from_cookie 5
    {[ "fbs_app" := "expires=soon&uid=7&sig=6f0fa0e1f6c40421f99a0a23c73ba51e" ]}
    "app" "secret"
  = Raise ValueError.
Proof.
  apply (non_integer_expires_raises 5 _ "app" "secret"
           "expires=soon&uid=7&sig=6f0fa0e1f6c40421f99a0a23c73ba51e"
           {[ "expires" := "soon"; "uid" := "7";
              "sig" := "6f0fa0e1f6c40421f99a0a23c73ba51e" ]}
           "soon"); try (vm_compute; reflexivity); [discriminate|].
  exact soon_not_int_text.
Defined.

(** no decimal integer string has a space after its first character *)
Lemma spaced_not_decimal (c : ascii) (ds : string) :
  Py.strip_ws (String c (String " " ds)) = String c (String " " ds) →
  ¬ decimal_integer_string (String c (String " " ds)).
Proof.
  intros Hstrip (sign & ds' & Hs & Hsign & Hne & Hall). rewrite Hstrip in Hs.
  assert (Hspace : ∀ t, ¬ Forall (fun c => is_Some (Py.digit c))
                          (list_ascii_of_string (String " " t))).
  { intros t [[d Hd] _]%Forall_cons. vm_compute in Hd. discriminate. }
  destruct Hsign as [->|[->| ->]].
  - rewrite append_empty_l in Hs. subst ds'. simpl in Hall.
    apply Forall_cons in Hall as [_ Hall]. by apply (Hspace ds).
  - change ("+" +:+ ds') with (String "+" ds') in Hs.
    injection Hs as _ <-. by apply (Hspace ds).
  - change ("-" +:+ ds') with (String "-" ds') in Hs.
    injection Hs as _ <-. by apply (Hspace ds).
Qed.

(** C9 (as stated) fails: [- 5] and [+ 0] are not decimal integer strings,
    a space standing between the sign and the digit, yet [int()] reads them
    as [-5] and [0]; a cookie with such an [expires] is answered and not
    refused: with [None], or, when it is signed, with the payload. *)
Lemma spaced_sign_expires_returns :
  ¬ decimal_integer_string "- 5" ∧ ¬ decimal_integer_string "+ 0" ∧
  get_user_from_cookie 5 {[ "fbs_app" := "expires=-+5&uid=7" ]} "app" "secret"
    = Ok None ∧
  get_user_from_cookie 5
    {[ "fbs_app" := "expires=%2B+0&uid=7&sig=d8e4a596d300a0a593d3ced97fda5163" ]}
    "app" "secret"
  = Ok (Some {[ "expires" := "+ 0"; "uid" := "7";
                "sig" := "d8e4a596d300a0a593d3ced97fda5163" ]}).
Proof.
  split; [by apply spaced_not_decimal|].
  split; [by apply spaced_not_decimal|].
  split; vm_compute; reflexivity.
Qed.

(** C10: when the payload has no [expires] key the unguarded lookup raises
    [KeyError], whatever the signature; the call does not return [None]. *)
Theorem missing_expires_raises now (cookies : gmap string string)
    app_id app_secret cookie args :
  cookies !! ("fbs_" +:+ app_id) = Some cookie → cookie ≠ "" →
  cookie_args cookie = Ok args →
  args !! "expires" = None →
  get_user_from_cookie now cookies app_id app_secret = Raise (KeyError "expires").
Proof.
  intros Hc Hne Hargs Ht.
  rewrite (get_user_from_cookie_unfold _ _ _ _ _ _ Hc Hne Hargs).
  unfold Py.getitem. by rewrite Ht.
Qed.

(** C10, witness: the signature over the remaining key is the right one,
    and the call raises all the same. *)
Lemma missing_expires_raises_witness :
  MD5.hexdigest ("uid=7" +:+ "secret") = "6e234cba360a5567933010d59196cdd6" ∧
  get_user_from_cookie 5
    {[ "fbs_app" := "uid=7&sig=6e234cba360a5567933010d59196cdd6" ]}
    "app" "secret"
  = Raise (KeyError "expires").
Proof.
  split; [vm_compute; reflexivity|].
  apply (missing_expires_raises 5 _ "app" "secret"
           "uid=7&sig=6e234cba360a5567933010d59196cdd6"
           {[ "uid" := "7"; "sig" := "6e234cba360a5567933010d59196cdd6" ]});
    try (vm_compute; reflexivity). discriminate.
Defined.

(** ** The dispatcher *)

Section Dispatcher.

Variable net : network.

Lemma bind_ok {A B} (m : io A) (f : A → io B) log a log' :
  m log = (Ok a, log') → (m ≫= f) log = f a log'.
Proof. intros H. unfold mbind, io_mbind, io_bind. by rewrite H. Qed.

Lemma bind_raise {A B} (m : io A) (f : A → io B) log e log' :
  m log = (Raise e, log') → (m ≫= f) log = (Raise e, log').
Proof. intros H. unfold mbind, io_mbind, io_bind. by rewrite H. Qed.

Lemma bind_lift_ok {A B} (a : A) (f : A → io B) log :
  (lift (Ok a) ≫= f) log = f a log.
Proof. reflexivity. Qed.

Lemma bind_ret {A B} (a : A) (f : A → io B) log : (mret a ≫= f) log = f a log.
Proof. reflexivity. Qed.

Lemma bind_http {B} (c : http_call) (f : net_reply → io B) log :
  (http net c ≫= f) log = f (net log c) (log ++ [c]).
Proof. reflexivity. Qed.

(** [request] makes exactly one round trip, whatever comes back. *)
Lemma request_one_call g path args post_args method log :
  (request net g path args post_args method log).2
  = log ++ [request_call g path args post_args method].
Proof.
  unfold request. rewrite bind_http.
  destruct (net log _) as [status [v|e]|[v|e]|e]; try reflexivity.
  - unfold mbind, io_mbind, io_bind, lift, raise, mret, io_mret, io_ret.
    destruct (Val.get v "error" PNone) as [err|]; [|done].
    destruct (Val.truthy err); [|done].
    destruct (Val.get err "type" PNone); [|done].
    by destruct (Val.get err "message" PNone).
  - unfold mbind, io_mbind, io_bind, lift, raise.
    destruct (Val.get _ "error" (PDict ∅)) as [e1|]; [|done].
    destruct (Val.get e1 "type" PNone); [|done].
    by destruct (Val.get e1 "message" PNone).
Qed.

Lemma request_response g path args post_args method log status (d : dict) :
  net log (request_call g path args post_args method) = Response status (Ok (PDict d)) →
  request net g path args post_args method log =
    (let error := default PNone (d !! "error") in
     if Val.truthy error then
       match Val.get error "type" PNone, Val.get error "message" PNone with
       | Ok type, Ok message => Raise (GraphAPIError type message)
       | Raise e, _ => Raise e
       | _, Raise e => Raise e
       end
     else Ok (PDict d),
     log ++ [request_call g path args post_args method]).
Proof.
  intros Hnet. unfold request. rewrite bind_http, Hnet.
  unfold mbind, io_mbind, io_bind, lift, raise, mret, io_mret, io_ret. simpl.
  destruct (Val.truthy (default PNone (d !! "error"))); [|done].
  destruct (Val.get _ "type" PNone); [|done].
  by destruct (Val.get _ "message" PNone).
Qed.

(** C2 (as amended): when the decoded body of the response is an object
    whose [error] is a non-empty object, [request] raises [GraphAPIError]
    with the [type] and [message] of that object ([None] for one that is
    missing) and returns nothing; the status code plays no part, so this
    holds of every 2xx response. *)
Theorem request_error_body_raises g path args post_args method log status
    (d e : dict) :
  net log (request_call g path args post_args method) = Response status (Ok (PDict d)) →
  d !! "error" = Some (PDict e) → e ≠ ∅ →
  request net g path args post_args method log =
    (Raise (GraphAPIError (default PNone (e !! "type")) (default PNone (e !! "message"))),
     log ++ [request_call g path args post_args method]).
Proof.
  intros Hnet Herr Hne. rewrite (request_response _ _ _ _ _ _ _ _ Hnet).
  rewrite Herr. simpl. by rewrite bool_decide_eq_false_2.
Qed.

(** An object without [error], or with one that is false as a condition,
    is returned as it came. *)
Lemma request_plain_object_returned g path args post_args method log status
    (d : dict) :
  net log (request_call g path args post_args method) = Response status (Ok (PDict d)) →
  Val.truthy (default PNone (d !! "error")) = false →
  request net g path args post_args method log =
    (Ok (PDict d), log ++ [request_call g path args post_args method]).
Proof.
  intros Hnet Herr. rewrite (request_response _ _ _ _ _ _ _ _ Hnet). simpl.
  by rewrite Herr.
Qed.

(** A decoded body that is not an object has no [get]: the test for [error]
    itself raises. *)
Lemma request_non_object_raises g path args post_args method log status v :
  net log (request_call g path args post_args method) = Response status (Ok v) →
  (∀ d, v ≠ PDict d) →
  request net g path args post_args method log =
    (Raise AttributeError, log ++ [request_call g path args post_args method]).
Proof.
  intros Hnet Hv. unfold request. rewrite bind_http, Hnet.
  destruct v; try reflexivity. by destruct (Hv d).
Qed.

End Dispatcher.

(** C2, witness: the body of the specification's example, on a 200. *)
Lemma request_error_body_raises_witness :
  request
    (fun _ _ =>
       Response 200
         (Ok (PDict {[ "error" := PDict {[ "type" := PStr "T"; "message" := PStr "M" ]} ]})))
    (client (Some "token")) "me" None None None []
  = (Raise (GraphAPIError (PStr "T") (PStr "M")),
     [request_call (client (Some "token")) "me" None None None]).
Proof.
  etrans.
  apply (request_error_body_raises
           (fun _ _ =>
              Response 200
                (Ok (PDict {[ "error" := PDict {[ "type" := PStr "T"; "message" := PStr "M" ]} ]})))
           (client (Some "token")) "me" None None None [] 200
           {[ "error" := PDict {[ "type" := PStr "T"; "message" := PStr "M" ]} ]}
           {[ "type" := PStr "T"; "message" := PStr "M" ]}).
  - reflexivity.
  - reflexivity.
  - intros H. apply (f_equal (fun m : dict => m !! "type")) in H.
    vm_compute in H. discriminate.
  - vm_compute. reflexivity.
Defined.

(** C2 (as stated) fails: on a 200 whose body is [{"error": {}}] the body
    contains an [error] object, yet nothing is raised and the body is
    returned as data. *)
Lemma empty_error_object_returned :
  request (fun _ _ => Response 200 (Ok (PDict {[ "error" := PDict ∅ ]})))
    (client (Some "token")) "me" None None None []
  = (Ok (PDict {[ "error" := PDict ∅ ]}),
     [request_call (client (Some "token")) "me" None None None]).
Proof. vm_compute. reflexivity. Qed.

(** C3, at the failing input: on a 200 whose decoded body is the plain array
    [[1, 2]], [request] does not return the array; [result.get] raises
    [AttributeError]. *)
Theorem request_array_body_raises (g : GraphAPI) (path : string)
    (args post_args : option dict) (method : option string) (log : list http_call) :
  request (fun _ _ => Response 200 (Ok (PList [PInt 1; PInt 2])))
    g path args post_args method log
  = (Raise AttributeError, log ++ [request_call g path args post_args method]).
Proof. by apply (request_non_object_raises _ _ _ _ _ _ _ 200 (PList [PInt 1; PInt 2])). Qed.

(** ** Where the token goes *)

(** C5 (as amended): on a client with a token, the token goes into the POST
    body when that body is non-empty and has no [access_token] key; in every
    other case (no body, an empty body, a body that has the key) it goes
    into the query parameters unless they have the key; an [access_token]
    already in either mapping is left as it is; and these two mappings are
    the ones the request is sent with. *)
Theorem request_args_injection (g : GraphAPI) (args post_args : option dict)
    (token : string) :
  access_token g = Some token → token ≠ "" →
  (∀ p : dict,
     post_args = Some p → p ≠ ∅ → p !! "access_token" = None →
     request_args g args post_args
       = (default ∅ args, Some (<["access_token" := PStr token]> p))) ∧
  ((post_args = None ∨ post_args = Some ∅ ∨
    ∃ p : dict, post_args = Some p ∧ is_Some (p !! "access_token")) →
   request_args g args post_args
     = (if bool_decide (is_Some (default ∅ args !! "access_token"))
        then default ∅ args
        else <["access_token" := PStr token]> (default ∅ args),
        post_args)) ∧
  (∀ v, default ∅ args !! "access_token" = Some v →
        (request_args g args post_args).1 !! "access_token" = Some v) ∧
  (∀ (p : dict) v,
     post_args = Some p → p !! "access_token" = Some v →
     (request_args g args post_args).2 = Some p) ∧
  ∀ path method,
    call_params (request_call g path args post_args method)
      = Some (request_args g args post_args).1 ∧
    call_data (request_call g path args post_args method)
      = (request_args g args post_args).2.
Proof.
  intros Htok Hne.
  assert (Hgiven : Val.given (access_token g) = true).
  { rewrite Htok. unfold Val.given. simpl. apply negb_true_iff.
    by apply String.eqb_neq. }
  split; [|split; [|split; [|split]]]; [| | | |done];
    unfold request_args; rewrite Hgiven, Htok; simpl.
  - intros p -> Hp Hnone.
    rewrite (bool_decide_eq_false_2 (p = ∅)) by done.
    rewrite (bool_decide_eq_false_2 (is_Some (p !! "access_token")))
      by (rewrite Hnone; by intros [??]).
    done.
  - intros [->|[->|[p [-> Hsome]]]].
    + by destruct (bool_decide _).
    + rewrite (bool_decide_eq_true_2 ((∅ : dict) = ∅)) by done. simpl.
      by destruct (bool_decide _).
    + rewrite (bool_decide_eq_true_2 (is_Some (p !! "access_token"))) by done.
      rewrite andb_false_r. by destruct (bool_decide _).
  - intros v Hv.
    assert (Hin : bool_decide (is_Some (default ∅ args !! "access_token")) = true)
      by (apply bool_decide_eq_true_2; eauto).
    destruct post_args as [p|]; rewrite Hin; [|exact Hv].
    by destruct (_ && _).
  - intros p v -> Hv.
    rewrite (bool_decide_eq_true_2 (is_Some (p !! "access_token"))) by eauto.
    rewrite andb_false_r. by destruct (bool_decide _).
Qed.

(** C5, witness: a wall post; the body gets the token, the query does not. *)
Lemma request_args_injection_witness :
  request_args (client (Some "token")) None (Some {[ "message" := PStr "hello" ]})
  = (∅, Some {[ "access_token" := PStr "token"; "message" := PStr "hello" ]}).
Proof.
  destruct (request_args_injection (client (Some "token")) None
              (Some {[ "message" := PStr "hello" ]}) "token") as [H _];
    [reflexivity|discriminate|].
  rewrite (H {[ "message" := PStr "hello" ]}); [reflexivity|reflexivity| |reflexivity].
  intros E. apply (f_equal (fun m : dict => m !! "message")) in E.
  vm_compute in E. discriminate.
Defined.

(** C5 (as stated) fails: a POST body that is present but empty and has no
    [access_token] key is not preferred; the token goes into the query
    parameters. *)
Lemma empty_post_body_not_preferred :
  request_args (client (Some "token")) None (Some ∅)
    = ({[ "access_token" := PStr "token" ]}, Some ∅) ∧
  prefer_post_body (client (Some "token")) None (Some ∅)
    = (∅, Some {[ "access_token" := PStr "token" ]}) ∧
  request_args (client (Some "token")) None (Some ∅)
    ≠ prefer_post_body (client (Some "token")) None (Some ∅).
Proof.
  split; [vm_compute; reflexivity|]. split; [vm_compute; reflexivity|].
  intros E. apply (f_equal (fun r : dict * option dict => r.1 !! "access_token")) in E.
  vm_compute in E. discriminate.
Qed.

(** ** Write operations and the token *)

Section Writes.

Variable net : network.
Variable str : pyval → string.

(** [put_object] and the three operations built on it stop at the
    assertion (or at the call itself) when the client has no token: nothing
    is sent. *)
Lemma put_object_requires_token g parent_object connection_name data log :
  Val.given (access_token g) = false →
  put_object net g parent_object connection_name data log
  = (Raise (AssertionError "Write operations require an access token"), log).
Proof. intros H. unfold put_object. by rewrite H. Qed.

Lemma put_comment_requires_token g object_id message log :
  Val.given (access_token g) = false →
  put_comment net g object_id message log
  = (Raise (AssertionError "Write operations require an access token"), log).
Proof. apply put_object_requires_token. Qed.

Lemma put_like_requires_token g object_id log :
  Val.given (access_token g) = false →
  put_like net g object_id log
  = (Raise (AssertionError "Write operations require an access token"), log).
Proof. apply put_object_requires_token. Qed.

Lemma put_wall_post_requires_token g message attachment profile_id log :
  Val.given (access_token g) = false →
  ∃ e, put_wall_post net g message attachment profile_id log = (Raise e, log).
Proof.
  intros H. unfold put_wall_post. destruct (keyword_clash _).
  - by exists TypeError.
  - eexists. by apply put_object_requires_token.
Qed.

Lemma keyword_clash_spec (attachment : dict) :
  keyword_clash attachment
  = bool_decide (Exists (fun k => is_Some (attachment !! k)) bound_parameters).
Proof.
  apply eq_true_iff_eq. rewrite bool_decide_eq_true. unfold keyword_clash.
  rewrite existsb_exists, Exists_exists. split.
  - intros (k & Hk & His). exists k. split; [by apply list_elem_of_In|].
    by apply bool_decide_eq_true in His.
  - intros (k & Hk & His). exists k. split; [by apply list_elem_of_In|].
    by apply bool_decide_eq_true.
Qed.

(** [delete_object] has no such guard: it goes to [request] at once. *)
Lemma delete_object_one_call g id log :
  (delete_object net g id log).2
  = log ++ [request_call g id None None (Some "DELETE")].
Proof. apply request_one_call. Qed.

Lemma grows_ret {A} (a : A) : grows (mret a).
Proof. intros log. exists []. by rewrite app_nil_r. Qed.

Lemma grows_lift {A} (r : result A) : grows (lift r).
Proof. intros log. exists []. by rewrite app_nil_r. Qed.

Lemma grows_raise {A} (e : exn) : grows (@raise A e).
Proof. intros log. exists []. by rewrite app_nil_r. Qed.

Lemma grows_http (c : http_call) : grows (http net c).
Proof. intros log. by exists [c]. Qed.

Lemma grows_bind {A B} (m : io A) (f : A → io B) :
  grows m → (∀ a, grows (f a)) → grows (m ≫= f).
Proof.
  intros Hm Hf log. unfold mbind, io_mbind, io_bind.
  destruct (Hm log) as [r1 H1]. destruct (m log) as [[a|e] log1]; simpl in H1; subst.
  - destruct (Hf a (log ++ r1)) as [r2 H2]. exists (r1 ++ r2).
    by rewrite H2, app_assoc.
  - by exists r1.
Qed.

Ltac solve_grows :=
  repeat first
    [ apply grows_ret | apply grows_lift | apply grows_raise | apply grows_http
    | apply grows_bind; [|intros ?]
    | match goal with
      | |- grows (if ?b then _ else _) => destruct b
      | |- grows (match ?x with _ => _ end) => destruct x
      | |- grows (let '(_, _) := ?x in _) => destruct x
      end ].

Lemma grows_reply_response reply : grows (reply_response reply).
Proof. unfold reply_response. solve_grows. Qed.

Lemma grows_get_page_access_token g page_id fb_uid :
  grows (get_page_access_token net g page_id fb_uid).
Proof. unfold get_page_access_token. solve_grows; apply grows_reply_response. Qed.

Lemma grows_put_event_picture g page_id fb_uid data response :
  grows (put_event_picture net str g page_id fb_uid data response).
Proof.
  unfold put_event_picture, page_token.
  solve_grows; first [apply grows_reply_response | apply grows_get_page_access_token].
Qed.

(** Nor has [put_event]: its first step is the POST of the event. *)
Lemma put_event_first_call g id page_id fb_uid data log :
  ∃ rest,
    (put_event net str g id page_id fb_uid data log).2
    = log ++ request_call g (event_path id page_id) None (Some data) (Some "POST")
        :: rest.
Proof.
  unfold put_event.
  pose proof (request_one_call net g (event_path id page_id) None (Some data)
                (Some "POST") log) as Hlog.
  destruct (request net g _ None (Some data) (Some "POST") log) as [[r|e] log1] eqn:E;
    simpl in Hlog; subst log1.
  - erewrite bind_ok by exact E.
    destruct (bool_decide _ && _).
    + destruct (grows_put_event_picture g page_id fb_uid
                  (default data (request_args g None (Some data)).2) r
                  (log ++ [request_call g (event_path id page_id) None (Some data)
                             (Some "POST")])) as [rest Hrest].
      exists rest. rewrite Hrest. by rewrite <- app_assoc.
    + by exists [].
  - erewrite bind_raise by exact E. by exists [].
Qed.

End Writes.

(** C4, at the failing inputs: on a client without a token, [delete_object]
    and [put_event] do not fail before the network; each sends its request
    (a DELETE, a POST) as its first step. *)
Theorem writes_without_token_reach_network (net : network) (str : pyval → string) :
  access_token (client None) = None ∧
  (delete_object net (client None) "123" []).2
    = [request_call (client None) "123" None None (Some "DELETE")] ∧
  ∃ rest,
    (put_event net str (client None) None None None {[ "name" := PStr "party" ]} []).2
    = request_call (client None) "me/events" None
        (Some {[ "name" := PStr "party" ]}) (Some "POST") :: rest.
Proof.
  split; [reflexivity|]. split.
  - apply (delete_object_one_call net (client None) "123" []).
  - apply (put_event_first_call net str (client None) None None None
             {[ "name" := PStr "party" ]} []).
Qed.

(** ** An event with a picture *)

Section Event.

Variable net : network.
Variable str : pyval → string.

(** The token injection leaves every other key of the keyword mapping as
    it was. *)
Lemma request_args_data_other g (data : dict) k :
  k ≠ "access_token" →
  default data (request_args g None (Some data)).2 !! k = data !! k.
Proof.
  intros Hk. unfold request_args.
  destruct (Val.given _); [|done].
  destruct (_ && _); simpl; [by rewrite lookup_insert_ne|].
  by destruct (bool_decide _).
Qed.

Lemma put_event_unfold g id page_id fb_uid (data : dict) log log1 (r : dict)
    picture i :
  request net g (event_path id page_id) None (Some data) (Some "POST") log
    = (Ok (PDict r), log1) →
  data !! "picture" = Some picture → r !! "id" = Some i →
  put_event net str g id page_id fb_uid data log
  = put_event_picture net str g page_id fb_uid
      (default data (request_args g None (Some data)).2) (PDict r) log1.
Proof.
  intros Hreq Hpic Hid. unfold put_event. erewrite bind_ok by exact Hreq.
  rewrite request_args_data_other, Hpic by done. simpl.
  rewrite Hid. by rewrite bool_decide_eq_true_2 by eauto.
Qed.


(** The other partial failure of [put_event]: when the lookup of the page
    token reports an error message, the created object is returned with that
    message and the picture is not sent. *)
Lemma put_event_page_token_failure_keeps_event g id page_id fb_uid (data : dict)
    log log1 log2 (r : dict) picture i token err :
  request net g (event_path id page_id) None (Some data) (Some "POST") log
    = (Ok (PDict r), log1) →
  data !! "picture" = Some picture → r !! "id" = Some i →
  page_token net g page_id fb_uid log1 = (Ok (token, err), log2) →
  Val.truthy err = true →
  put_event net str g id page_id fb_uid data log = (Ok (PDict r, err), log2).
Proof.
  intros Hreq Hpic Hid Hpage Herr.
  rewrite (put_event_unfold _ _ _ _ _ _ _ _ _ _ Hreq Hpic Hid).
  unfold put_event_picture. erewrite bind_ok by exact Hpage.
  cbv beta iota. by rewrite Herr.
Qed.

(** The upload once sent, by what comes back: a 200 gives the object with
    no message; an exception of the transport, or a refusal whose body does
    not decode, is not caught. *)
Lemma put_event_upload g id page_id fb_uid (data : dict)
    log log1 log2 (r : dict) picture i token err :
  request net g (event_path id page_id) None (Some data) (Some "POST") log
    = (Ok (PDict r), log1) →
  data !! "picture" = Some picture → r !! "id" = Some i →
  page_token net g page_id fb_uid log1 = (Ok (token, err), log2) →
  Val.truthy err = false →
  put_event net str g id page_id fb_uid data log
  = (match net log2 (picture_call str g token picture i) with
     | Response status json =>
         if negb (status =? 200) then
           match json with
           | Ok body =>
               match body_error_message body with
               | Ok message => Ok (PDict r, message)
               | Raise e => Raise e
               end
           | Raise e => Raise e
           end
         else Ok (PDict r, PNone)
     | HTTPError _ => Raise (TransportError "HTTPError")
     | Fails e => Raise e
     end,
     log2 ++ [picture_call str g token picture i]).
Proof.
  intros Hreq Hpic Hid Hpage Herr.
  rewrite (put_event_unfold _ _ _ _ _ _ _ _ _ _ Hreq Hpic Hid).
  unfold put_event_picture. erewrite bind_ok by exact Hpage.
  cbv beta iota. rewrite Herr.
  unfold Py.getitem. rewrite request_args_data_other, Hpic by done.
  rewrite bind_lift_ok. simpl Val.getitem. unfold Py.getitem. rewrite Hid.
  rewrite bind_lift_ok, bind_http.
  destruct (net log2 _) as [status json|read|e]; try reflexivity.
  simpl reply_response. rewrite bind_ret. cbv beta iota.
  destruct (negb (status =? 200)); [|reflexivity].
  destruct json as [body|e]; [|reflexivity].
  rewrite bind_lift_ok.
  unfold mbind, io_mbind, io_bind, lift.
  by destruct (body_error_message body).
Qed.

End Event.



(** * Further properties of the module *)

(** ** The verifier: what a returned payload guarantees *)

Lemma get_user_from_cookie_cases now (cookies : gmap string string)
    app_id app_secret :
  (default "" (cookies !! ("fbs_" +:+ app_id)) = "" ∧
   get_user_from_cookie now cookies app_id app_secret = Ok None) ∨
  ∃ cookie args,
    cookies !! ("fbs_" +:+ app_id) = Some cookie ∧ cookie ≠ "" ∧
    cookie_args cookie = Ok args ∧
    get_user_from_cookie now cookies app_id app_secret =
      text ← Py.getitem args "expires";
      expires ← Py.int text;
      if accepted now (MD5.hexdigest (signing_string args +:+ app_secret)) args expires
      then Ok (Some args) else Ok None.
Proof.
  destruct (cookies !! ("fbs_" +:+ app_id)) as [cookie|] eqn:Hc.
  - destruct (decide (cookie = "")) as [->|Hne].
    + left. split; [done|]. apply get_user_from_cookie_absent. by rewrite Hc.
    + right. destruct (cookie_args_total cookie) as [args Hargs].
      exists cookie, args. repeat split; try done.
      by apply get_user_from_cookie_unfold with cookie.
  - left. split; [done|]. apply get_user_from_cookie_absent. by rewrite Hc.
Qed.

(** X1: a payload is returned only for a non-empty cookie whose [sig] is the
    MD5 hex digest of its signing string followed by the secret and whose
    [expires] is an integer that is zero or after the clock; whatever the
    input, nothing unsigned or expired comes back. *)
Theorem returned_payload_is_signed now (cookies : gmap string string)
    app_id app_secret payload :
  get_user_from_cookie now cookies app_id app_secret = Ok (Some payload) →
  ∃ cookie text expires,
    cookies !! ("fbs_" +:+ app_id) = Some cookie ∧ cookie ≠ "" ∧
    cookie_args cookie = Ok payload ∧
    payload !! "sig" = Some (MD5.hexdigest (signing_string payload +:+ app_secret)) ∧
    payload !! "expires" = Some text ∧ Py.int text = Ok expires ∧
    (expires = 0 ∨ Qlt now (inject_Z expires)).
Proof.
  intros Hrun.
  destruct (get_user_from_cookie_cases now cookies app_id app_secret)
    as [[_ Hnone]|(cookie & args & Hc & Hne & Hargs & Heq)]; [congruence|].
  rewrite Heq in Hrun. unfold Py.getitem in Hrun.
  destruct (args !! "expires") as [text|] eqn:Ht; [|done]. simpl in Hrun.
  destruct (Py.int text) as [expires|] eqn:Hint; [|done]. simpl in Hrun.
  destruct (accepted _ _ _ _) eqn:Hacc; [|done].
  injection Hrun as <-. apply accepted_spec in Hacc as [Hsig Hexp].
  exists cookie, text, expires. by repeat split.
Qed.

Lemma returned_payload_is_signed_witness :
  ∃ text expires,
    ({[ "expires" := "100"; "uid" := "7";
        "sig" := "992a13397fe4ec89308949763d391e42" ]} : gmap string string)
      !! "expires" = Some text ∧
    Py.int text = Ok expires ∧ (expires = 0 ∨ Qlt 99 (inject_Z expires)).
Proof.
  destruct (returned_payload_is_signed 99
              {[ "fbs_app" := "expires=100&uid=7&sig=992a13397fe4ec89308949763d391e42" ]}
              "app" "secret"
              {[ "expires" := "100"; "uid" := "7";
                 "sig" := "992a13397fe4ec89308949763d391e42" ]})
    as (cookie & text & expires & _ & _ & _ & _ & Ht & Hint & Hexp).
  - vm_compute. reflexivity.
  - eauto.
Defined.

(** X2: acceptance only ever lapses with time: a payload returned at one
    reading of the clock is returned at every earlier reading. *)
Theorem accepted_at_earlier_time now earlier (cookies : gmap string string)
    app_id app_secret payload :
  Qle earlier now →
  get_user_from_cookie now cookies app_id app_secret = Ok (Some payload) →
  get_user_from_cookie earlier cookies app_id app_secret = Ok (Some payload).
Proof.
  intros Hle Hrun.
  destruct (get_user_from_cookie_cases now cookies app_id app_secret)
    as [[_ Hnone]|(cookie & args & Hc & Hne & Hargs & Heq)]; [congruence|].
  rewrite (get_user_from_cookie_unfold _ _ _ _ _ _ Hc Hne Hargs).
  rewrite Heq in Hrun. unfold Py.getitem in *.
  destruct (args !! "expires") as [text|]; [|done]. simpl in *.
  destruct (Py.int text) as [expires|]; [|done]. simpl in *.
  destruct (accepted now _ _ _) eqn:Hacc; [|done].
  apply accepted_spec in Hacc as [Hsig Hexp].
  rewrite (proj2 (accepted_spec earlier _ _ _)); [done|].
  split; [done|]. destruct Hexp as [?|Hlt]; [by left|right].
  by eapply Qle_lt_trans.
Qed.

Lemma accepted_at_earlier_time_witness :
  get_user_from_cookie 3
    {[ "fbs_app" := "expires=100&uid=7&sig=992a13397fe4ec89308949763d391e42" ]}
    "app" "secret"
  = Ok (Some {[ "expires" := "100"; "uid" := "7";
                "sig" := "992a13397fe4ec89308949763d391e42" ]}).
Proof.
  apply (accepted_at_earlier_time 99 3).
  - discriminate.
  - vm_compute. reflexivity.
Defined.

(** X3: the only ways out of [get_user_from_cookie] are a payload, [None],
    [KeyError('expires')] and [ValueError]; parsing the cookie never fails,
    and [v[-1]] never meets an empty list. *)
Theorem get_user_from_cookie_outcomes now (cookies : gmap string string)
    app_id app_secret :
  (∃ payload, get_user_from_cookie now cookies app_id app_secret = Ok (Some payload)) ∨
  get_user_from_cookie now cookies app_id app_secret = Ok None ∨
  get_user_from_cookie now cookies app_id app_secret = Raise (KeyError "expires") ∨
  get_user_from_cookie now cookies app_id app_secret = Raise ValueError.
Proof.
  destruct (get_user_from_cookie_cases now cookies app_id app_secret)
    as [[_ Hnone]|(cookie & args & Hc & Hne & Hargs & Heq)]; [auto|].
  rewrite Heq. unfold Py.getitem, Py.int.
  destruct (args !! "expires") as [text|]; simpl; [|auto].
  destruct (Py.literal _); simpl; [|auto].
  destruct (accepted _ _ _ _); eauto.
Qed.

(** ** The verifier: layers of quotes *)

Section Quotes.

Variable c : ascii.

Lemma lstrip_times n s : Str.lstrip c (Str.times c n +:+ s) = Str.lstrip c s.
Proof.
  induction n as [|n IH]; [done|].
  simpl Str.times. rewrite append_cons. simpl. by rewrite Ascii.eqb_refl.
Qed.

Lemma rstrip_only_times m : Str.rstrip c (Str.times c m) = "".
Proof. induction m as [|m IH]; [done|]. simpl. by rewrite IH, Ascii.eqb_refl. Qed.

Lemma rstrip_times m s : Str.rstrip c (s +:+ Str.times c m) = Str.rstrip c s.
Proof.
  induction s as [|a s IH].
  - rewrite append_empty_l. apply rstrip_only_times.
  - rewrite append_cons. simpl. by rewrite IH.
Qed.

Lemma strip_times_r m s :
  Str.rstrip c (Str.lstrip c (s +:+ Str.times c m)) = Str.rstrip c (Str.lstrip c s).
Proof.
  induction s as [|a s IH].
  - rewrite append_empty_l.
    replace (Str.times c m) with (Str.times c m +:+ "") by apply append_empty_r.
    by rewrite lstrip_times.
  - rewrite append_cons. simpl. destruct (Ascii.eqb a c); [exact IH|].
    by rewrite <- append_cons, rstrip_times.
Qed.

Lemma strip_times n m s :
  Str.strip c (Str.times c n +:+ s +:+ Str.times c m) = Str.strip c s.
Proof. unfold Str.strip. by rewrite lstrip_times, strip_times_r. Qed.

End Quotes.

Lemma wrapped_nonempty c n m s : s ≠ "" → Str.times c n +:+ s +:+ Str.times c m ≠ "".
Proof.
  intros Hs H. destruct n; [|done]. rewrite append_empty_l in H.
  by destruct s.
Qed.

(** X4: layers of quote characters around the cookie value do not count:
    a non-empty cookie and the same cookie wrapped in any number of leading
    and trailing quotes get the same answer. *)
Theorem quote_layers_ignored now (cookies : gmap string string)
    app_id app_secret cookie n m :
  cookies !! ("fbs_" +:+ app_id) = Some cookie → cookie ≠ "" →
  get_user_from_cookie now
    (<["fbs_" +:+ app_id :=
         Str.times dquote n +:+ cookie +:+ Str.times dquote m]> cookies)
    app_id app_secret
  = get_user_from_cookie now cookies app_id app_secret.
Proof.
  intros Hc Hne. unfold get_user_from_cookie.
  rewrite lookup_insert_eq, Hc. simpl.
  rewrite !decide_False by (done || by apply wrapped_nonempty).
  unfold cookie_args. by rewrite strip_times.
Qed.

Lemma quote_layers_ignored_witness :
  get_user_from_cookie 99
    {[ "fbs_app" :=
         Str.times dquote 3 +:+
         "expires=100&uid=7&sig=992a13397fe4ec89308949763d391e42" +:+
         Str.times dquote 1 ]}
    "app" "secret"
  = Ok (Some {[ "expires" := "100"; "uid" := "7";
                "sig" := "992a13397fe4ec89308949763d391e42" ]}).
Proof.
  etrans; [|etrans].
  2: apply (quote_layers_ignored 99
              {[ "fbs_app" := "expires=100&uid=7&sig=992a13397fe4ec89308949763d391e42" ]}
              "app" "secret"
              "expires=100&uid=7&sig=992a13397fe4ec89308949763d391e42" 3 1);
       [reflexivity|discriminate].
  - vm_compute. reflexivity.
  - vm_compute. reflexivity.
Defined.

(** ** The signing string: what it sees and what it cannot tell apart *)

Lemma signing_keys_unique (args : gmap string string) (l : list string) :
  StronglySorted String.le l → NoDup l →
  (∀ k, k ∈ l ↔ is_Some (args !! k) ∧ k ≠ "sig") →
  filter (fun k => k ≠ "sig") (sorted_keys args) = l.
Proof.
  intros Hs Hnd Hel.
  apply (StronglySorted_unique String.le).
  - apply StronglySorted_filter, sorted_keys_sorted.
  - exact Hs.
  - apply NoDup_Permutation; [apply NoDup_filter, sorted_keys_NoDup|exact Hnd|].
    intros k. rewrite list_elem_of_filter, elem_of_sorted_keys, Hel. tauto.
Qed.

(** X5: the signing string is blind to the [sig] field: setting, changing or
    removing [sig] leaves it as it was, so the digest is taken over the other
    fields only. *)
Theorem signing_string_ignores_sig (args : gmap string string) (x : string) :
  signing_string (<["sig" := x]> args) = signing_string args ∧
  signing_string (delete "sig" args) = signing_string args.
Proof.
  assert (Hkeys : ∀ args' : gmap string string,
    (∀ k, k ≠ "sig" → args' !! k = args !! k) →
    signing_string args' = signing_string args).
  { intros args' Hsame. unfold signing_string.
    rewrite (signing_keys_unique args'
               (filter (fun k => k ≠ "sig") (sorted_keys args))).
    - f_equal. apply Forall_fmap_ext_1, Forall_forall.
      intros k [Hk _]%list_elem_of_filter.
      by rewrite !lookup_total_alt, (Hsame k Hk).
    - apply StronglySorted_filter, sorted_keys_sorted.
    - apply NoDup_filter, sorted_keys_NoDup.
    - intros k. rewrite list_elem_of_filter, elem_of_sorted_keys.
      split.
      + intros [H1 H2]. split; [|done]. by rewrite (Hsame k H1).
      + intros [H1 H2]. split; [done|]. by rewrite <- (Hsame k H2). }
  split; apply Hkeys; intros k Hk.
  - by rewrite lookup_insert_ne.
  - by rewrite lookup_delete_ne.
Qed.

Lemma signing_string_agree (args args' : gmap string string) :
  (∀ k, k ≠ "sig" → args' !! k = args !! k) →
  signing_string args' = signing_string args.
Proof.
  intros Hsame. unfold signing_string.
  rewrite (signing_keys_unique args'
             (filter (fun k => k ≠ "sig") (sorted_keys args))).
  - f_equal. apply Forall_fmap_ext_1, Forall_forall.
    intros k [Hk _]%list_elem_of_filter.
    by rewrite !lookup_total_alt, (Hsame k Hk).
  - apply StronglySorted_filter, sorted_keys_sorted.
  - apply NoDup_filter, sorted_keys_NoDup.
  - intros k. rewrite list_elem_of_filter, elem_of_sorted_keys.
    split.
    + intros [H1 H2]. split; [|done]. by rewrite (Hsame k H1).
    + intros [H1 H2]. split; [done|]. by rewrite <- (Hsame k H2).
Qed.

Lemma signing_string_two (k k' v v' : string) :
  String.le k k' → k ≠ k' → k ≠ "sig" → k' ≠ "sig" →
  signing_string {[ k := v; k' := v' ]} = k +:+ "=" +:+ v +:+ k' +:+ "=" +:+ v'.
Proof.
  intros Hle Hne Hk Hk'. unfold signing_string.
  rewrite (signing_keys_unique _ [k; k']).
  - simpl. rewrite lookup_total_insert_eq, lookup_total_insert_ne by done.
    rewrite lookup_total_singleton_eq.
    change (Str.join [k +:+ "=" +:+ v; k' +:+ "=" +:+ v'])
      with ((k +:+ "=" +:+ v) +:+ (k' +:+ "=" +:+ v') +:+ "").
    by rewrite append_empty_r, !append_assoc.
  - repeat constructor; done.
  - apply NoDup_cons. split; [by intros ->%list_elem_of_singleton|].
    apply NoDup_singleton.
  - intros x. rewrite !elem_of_cons, elem_of_nil.
    split.
    + intros [->|[->|[]]]; (split; [|done]).
      * rewrite lookup_insert_eq. eauto.
      * rewrite lookup_insert_ne, lookup_singleton_eq by done. eauto.
    + intros [[y Hy] _]. apply lookup_insert_Some in Hy as [[-> _]|[_ Hy]]; [auto|].
      apply lookup_singleton_Some in Hy as [-> _]. auto.
Qed.

Lemma signing_string_one (k v : string) :
  k ≠ "sig" → signing_string {[ k := v ]} = k +:+ "=" +:+ v.
Proof.
  intros Hk. unfold signing_string. rewrite (signing_keys_unique _ [k]).
  - simpl. rewrite lookup_total_singleton_eq.
    change (Str.join [k +:+ "=" +:+ v]) with ((k +:+ "=" +:+ v) +:+ "").
    apply append_empty_r.
  - repeat constructor.
  - apply NoDup_singleton.
  - intros x. rewrite list_elem_of_singleton. split.
    + intros ->. rewrite lookup_singleton_eq. eauto.
    + intros [[y [-> _]%lookup_singleton_Some] _]. done.
Qed.

(** X6: the signing string does not mark where a value ends: for two keys
    in order, the payload [{k: v, k': v'}] and the one-key payload that
    carries [k'=v'] at the end of the value of [k] are different payloads
    with the same signing string, so each digest that signs one signs the
    other. *)
Theorem signing_string_collision (k k' v v' app_secret : string) :
  String.le k k' → k ≠ k' → k ≠ "sig" → k' ≠ "sig" →
  ({[ k := v; k' := v' ]} : gmap string string) ≠ {[ k := v +:+ k' +:+ "=" +:+ v' ]} ∧
  signing_string {[ k := v; k' := v' ]}
    = signing_string {[ k := v +:+ k' +:+ "=" +:+ v' ]} ∧
  MD5.hexdigest (signing_string {[ k := v; k' := v' ]} +:+ app_secret)
    = MD5.hexdigest (signing_string {[ k := v +:+ k' +:+ "=" +:+ v' ]} +:+ app_secret).
Proof.
  intros Hle Hne Hk Hk'.
  assert (Heq : signing_string {[ k := v; k' := v' ]}
                = signing_string {[ k := v +:+ k' +:+ "=" +:+ v' ]}).
  { by rewrite signing_string_two, signing_string_one. }
  split; [|split; [exact Heq|by rewrite Heq]].
  intros Hmaps. apply (f_equal (fun m : gmap string string => m !! k')) in Hmaps.
  rewrite lookup_insert_ne, lookup_singleton_eq, lookup_singleton_ne in Hmaps by done.
  discriminate.
Qed.

Lemma signing_string_collision_witness :
  signing_string {[ "a" := "1"; "b" := "2" ]} = signing_string {[ "a" := "1b=2" ]}.
Proof.
  apply (signing_string_collision "a" "b" "1" "2" "secret"); try discriminate.
  vm_compute. exact I.
Defined.

(** ** Signing, then verifying *)

Lemma lstrip_free c s : Str.occurs c s = false → Str.lstrip c s = s.
Proof.
  destruct s as [|a s]; simpl; [done|].
  intros [Ha _]%orb_false_iff. by rewrite Ha.
Qed.

Lemma rstrip_free c s : Str.occurs c s = false → Str.rstrip c s = s.
Proof.
  induction s as [|a s IH]; simpl; [done|].
  intros [Ha Hs]%orb_false_iff. rewrite (IH Hs), Ha. by destruct s.
Qed.

Lemma strip_free c s : Str.occurs c s = false → Str.strip c s = s.
Proof. intros H. unfold Str.strip. by rewrite (lstrip_free _ _ H), rstrip_free. Qed.

Lemma occurs_cons c a s : Str.occurs c (String a s) = Ascii.eqb a c || Str.occurs c s.
Proof. reflexivity. Qed.

Lemma occurs_query_of c pairs :
  c ≠ "="%char → c ≠ "&"%char →
  Forall (fun kv => Str.occurs c kv.1 = false ∧ Str.occurs c kv.2 = false) pairs →
  Str.occurs c (query_of pairs) = false.
Proof.
  intros Heq Hamp. induction 1 as [|[k v] rest [Hk Hv] _ IH]; [done|].
  simpl in Hk, Hv.
  assert (Hc1 : Ascii.eqb "=" c = false) by (apply Ascii.eqb_neq; congruence).
  assert (Hc2 : Ascii.eqb "&" c = false) by (apply Ascii.eqb_neq; congruence).
  destruct rest as [|kv rest].
  - change (query_of [(k, v)]) with (k +:+ String "=" (v +:+ "")).
    by rewrite append_empty_r, occurs_append, occurs_cons, Hk, Hv, Hc1.
  - change (query_of ((k, v) :: kv :: rest))
      with (k +:+ String "=" (v +:+ String "&" (query_of (kv :: rest)))).
    by rewrite occurs_append, occurs_cons, occurs_append, occurs_cons,
      Hk, Hv, Hc1, Hc2, IH.
Qed.

Lemma all_hex_append s t : all_hex (s +:+ t) = all_hex s && all_hex t.
Proof.
  induction s as [|a s IH]; [done|].
  rewrite append_cons. simpl. by rewrite IH, andb_assoc.
Qed.

Lemma all_hex_occurs c s : all_hex s = true → is_hex c = false → Str.occurs c s = false.
Proof.
  intros Hs Hc. induction s as [|a s IH]; [done|]. simpl in *.
  apply andb_true_iff in Hs as [Ha Hs]. rewrite (IH Hs), orb_false_r.
  apply Ascii.eqb_neq. intros ->. congruence.
Qed.

Lemma hex_digit_is_hex n : 0 ≤ n < 16 → is_hex (MD5.hex_digit n) = true.
Proof.
  intros Hn.
  assert (n = 0 ∨ n = 1 ∨ n = 2 ∨ n = 3 ∨ n = 4 ∨ n = 5 ∨ n = 6 ∨ n = 7 ∨
          n = 8 ∨ n = 9 ∨ n = 10 ∨ n = 11 ∨ n = 12 ∨ n = 13 ∨ n = 14 ∨ n = 15)
    as Hcases by lia.
  repeat (destruct Hcases as [->|Hcases]; [reflexivity|]). by subst.
Qed.

Lemma hex_byte_all_hex x : all_hex (MD5.hex_byte (Z.land x 255)) = true.
Proof.
  unfold MD5.hex_byte. simpl. rewrite !hex_digit_is_hex; [done| |].
  - change 15 with (Z.ones 4). rewrite Z.land_ones by lia.
    apply Z.mod_pos_bound. lia.
  - change 255 with (Z.ones 8). rewrite Z.land_ones, Z.shiftr_div_pow2 by lia.
    pose proof (Z.mod_pos_bound x (2 ^ 8) ltac:(lia)).
    split; [apply Z.div_pos; lia|apply Z.div_lt_upper_bound; lia].
Qed.

Lemma le_bytes_all_hex w x :
  all_hex (Str.join (List.map MD5.hex_byte (MD5.le_bytes w x))) = true.
Proof.
  revert x. induction w as [|w IH]; intros x; [done|].
  change (Str.join (List.map MD5.hex_byte (MD5.le_bytes (S w) x)))
    with (MD5.hex_byte (Z.land x 255)
          +:+ Str.join (List.map MD5.hex_byte (MD5.le_bytes w (Z.shiftr x 8)))).
  rewrite all_hex_append, hex_byte_all_hex. apply IH.
Qed.

Lemma join_app l1 l2 : Str.join (l1 ++ l2) = Str.join l1 +:+ Str.join l2.
Proof.
  induction l1 as [|s l1 IH]; [done|].
  simpl. by rewrite IH, append_assoc.
Qed.

Lemma hexdigest_all_hex data : all_hex (MD5.hexdigest data) = true.
Proof.
  unfold MD5.hexdigest, MD5.digest.
  destruct (fold_left _ _ _) as [A B C D].
  rewrite !map_app, !join_app, !all_hex_append, !le_bytes_all_hex. done.
Qed.

Lemma hexdigest_nonempty data : MD5.hexdigest data ≠ "".
Proof.
  unfold MD5.hexdigest, MD5.digest.
  destruct (fold_left _ _ _) as [A B C D]. discriminate.
Qed.

Lemma hexdigest_plain data :
  plain_value (MD5.hexdigest data) = true ∧
  Str.occurs dquote (MD5.hexdigest data) = false.
Proof.
  pose proof (hexdigest_all_hex data) as Hhex.
  split; [|by apply all_hex_occurs].
  unfold plain_value. rewrite !all_hex_occurs by done. simpl.
  apply negb_true_iff, String.eqb_neq, hexdigest_nonempty.
Qed.

Lemma values_of_app k l1 l2 : values_of k (l1 ++ l2) = values_of k l1 ++ values_of k l2.
Proof. unfold values_of. apply omap_app. Qed.

Lemma values_of_absent k (pairs : list (string * string)) :
  k ∉ pairs.*1 → values_of k pairs = [].
Proof.
  induction pairs as [|[k0 v0] pairs IH]; [done|].
  rewrite fmap_cons, not_elem_of_cons. intros [Hne Hnot].
  rewrite values_of_cons, decide_False by (simpl in Hne; congruence). auto.
Qed.

Lemma last_values_of_NoDup k (pairs : list (string * string)) :
  NoDup pairs.*1 →
  last (values_of k pairs) = (list_to_map pairs : gmap string string) !! k.
Proof.
  induction pairs as [|[k0 v0] pairs IH]; [done|].
  rewrite fmap_cons, NoDup_cons. intros [Hnot Hnd]. simpl in Hnot.
  rewrite values_of_cons. simpl. destruct (decide (k0 = k)) as [->|Hne].
  - by rewrite (values_of_absent _ _ Hnot), lookup_insert_eq.
  - rewrite lookup_insert_ne by done. auto.
Qed.

Lemma cookie_args_of_signed (pairs : list (string * string)) (sig : string) :
  Forall (fun kv => plain_name kv.1 = true ∧ plain_value kv.2 = true ∧
                    Str.occurs dquote kv.1 = false ∧ Str.occurs dquote kv.2 = false)
    pairs →
  NoDup pairs.*1 → plain_value sig = true → Str.occurs dquote sig = false →
  cookie_args (query_of (pairs ++ [("sig", sig)]))
  = Ok (<["sig" := sig]> (list_to_map pairs)).
Proof.
  intros Hplain Hnd Hsig Hq.
  destruct (cookie_args_lookup (query_of (pairs ++ [("sig", sig)]))) as [args [-> Hl]].
  f_equal. apply map_eq. intros k. rewrite Hl.
  rewrite strip_free, parse_qsl_query_of.
  - rewrite values_of_app. destruct (decide (k = "sig")) as [->|Hne].
    + rewrite lookup_insert_eq, values_of_cons, decide_True by done.
      apply last_snoc.
    + rewrite lookup_insert_ne, values_of_cons, decide_False by done.
      change (values_of k []) with (@nil string).
      rewrite app_nil_r. by apply last_values_of_NoDup.
  - apply Forall_app. split.
    + eapply Forall_impl; [exact Hplain|]. simpl. tauto.
    + by repeat constructor.
  - apply occurs_query_of; [discriminate..|].
    apply Forall_app. split.
    + eapply Forall_impl; [exact Hplain|]. simpl. tauto.
    + by repeat constructor.
Qed.

(** X7: signing and verifying fit together: for pairs with distinct keys
    whose names and values need no escaping and hold no quote, the cookie text that joins them and ends in [sig] = MD5 of the
    signing string and the secret is accepted while its [expires] is zero
    or ahead of the clock, and the payload returned is exactly the pairs
    together with that [sig]. *)
Theorem signed_cookie_is_accepted now app_id app_secret
    (pairs : list (string * string)) text expires :
  Forall (fun kv => plain_name kv.1 = true ∧ plain_value kv.2 = true ∧
                    Str.occurs dquote kv.1 = false ∧ Str.occurs dquote kv.2 = false)
    pairs →
  NoDup pairs.*1 →
  (list_to_map pairs : gmap string string) !! "expires" = Some text →
  Py.int text = Ok expires → expires = 0 ∨ Qlt now (inject_Z expires) →
  get_user_from_cookie now
    {[ "fbs_" +:+ app_id :=
         query_of
           (pairs ++
            [("sig", MD5.hexdigest (signing_string (list_to_map pairs) +:+ app_secret))]) ]}
    app_id app_secret
  = Ok (Some (<["sig" := MD5.hexdigest (signing_string (list_to_map pairs) +:+ app_secret)]>
                (list_to_map pairs))).
Proof.
  intros Hplain Hnd Ht Hint Hexp.
  set (args := list_to_map pairs : gmap string string) in *.
  set (sig := MD5.hexdigest (signing_string args +:+ app_secret)).
  destruct (hexdigest_plain (signing_string args +:+ app_secret)) as [Hsig Hq].
  rewrite (get_user_from_cookie_unfold now _ app_id app_secret
             (query_of (pairs ++ [("sig", sig)])) (<["sig" := sig]> args)).
  - unfold Py.getitem. rewrite lookup_insert_ne, Ht by done. simpl.
    rewrite Hint. simpl.
    rewrite (proj2 (accepted_spec _ _ _ _)); [done|]. split; [|done].
    rewrite lookup_insert_eq. f_equal. unfold sig. f_equal. f_equal.
    symmetry. apply signing_string_agree. intros k Hk. by rewrite lookup_insert_ne.
  - apply lookup_singleton_eq.
  - intros Hempty. apply (f_equal (Str.occurs "=")) in Hempty.
    clear -Hempty. revert Hempty.
    induction pairs as [|[k v] [|kv rest] IH].
    + vm_compute. done.
    + change (query_of ([(k, v)] ++ [("sig", sig)]))
        with (k +:+ String "=" (v +:+ String "&" (query_of [("sig", sig)]))).
      rewrite occurs_append, occurs_cons, Ascii.eqb_refl, orb_true_r. done.
    + change (query_of (((k, v) :: kv :: rest) ++ [("sig", sig)]))
        with (k +:+ String "=" (v +:+ String "&" (query_of ((kv :: rest) ++ [("sig", sig)])))).
      rewrite occurs_append, occurs_cons, Ascii.eqb_refl, orb_true_r. done.
  - by apply cookie_args_of_signed.
Qed.

Lemma signed_cookie_is_accepted_witness :
  get_user_from_cookie 99
    {[ "fbs_app" := "uid=7&expires=100&sig=992a13397fe4ec89308949763d391e42" ]}
    "app" "secret"
  = Ok (Some {[ "expires" := "100"; "uid" := "7";
                "sig" := "992a13397fe4ec89308949763d391e42" ]}).
Proof.
  etrans; [|etrans].
  2: apply (signed_cookie_is_accepted 99 "app" "secret"
              [("uid", "7"); ("expires", "100")] "100" 100).
  - vm_compute. reflexivity.
  - repeat constructor.
  - apply NoDup_cons. split; [by intros [=]%list_elem_of_singleton|apply NoDup_singleton].
  - reflexivity.
  - reflexivity.
  - right. reflexivity.
  - vm_compute. reflexivity.
Defined.

(** ** The dispatcher: round trips, results, and what is sent *)

Section DispatcherMore.

Variable net : network.

(** X8: [request] makes exactly one round trip, whatever the reply and
    whether it returns or raises: the log grows by the one call
    [request_call] describes, and there is no retry. *)
Theorem request_exactly_one_round_trip g path args post_args method log :
  ∃ outcome,
    request net g path args post_args method log
    = (outcome, log ++ [request_call g path args post_args method]).
Proof.
  exists (request net g path args post_args method log).1.
  rewrite <- (request_one_call net g path args post_args method log).
  by destruct (request net g path args post_args method log).
Qed.

(** X9: whatever [request] returns is a decoded object whose [error] is
    absent or false as a condition; an array, a scalar or an object with a
    true [error] is never a return value. *)
Theorem request_returns_plain_object g path args post_args method log v log' :
  request net g path args post_args method log = (Ok v, log') →
  ∃ (d : dict) status,
    v = PDict d ∧
    net log (request_call g path args post_args method) = Response status (Ok (PDict d)) ∧
    Val.truthy (default PNone (d !! "error")) = false.
Proof.
  unfold request. rewrite bind_http.
  destruct (net log _) as [status [body|e]|[body|e]|e] eqn:Hnet; try done.
  - destruct body as [| | | | | |d]; try done.
    revert Hnet. intros Hnet.
    rewrite <- Hnet. rewrite Hnet.
    unfold mbind, io_mbind, io_bind, lift, raise, mret, io_mret, io_ret. simpl.
    destruct (Val.truthy (default PNone (d !! "error"))) eqn:Herr.
    + destruct (Val.get _ "type" PNone); [|done].
      by destruct (Val.get _ "message" PNone).
    + intros [= <- <-]. eauto.
  - unfold mbind, io_mbind, io_bind, lift, raise.
    destruct (Val.get _ "error" (PDict ∅)) as [e1|]; [|done].
    destruct (Val.get e1 "type" PNone); [|done].
    by destruct (Val.get e1 "message" PNone).
Qed.

End DispatcherMore.

Lemma request_returns_plain_object_witness :
  ∃ d : dict, PDict {[ "id" := PStr "42" ]} = PDict d ∧ d !! "error" = None.
Proof.
  destruct (request_returns_plain_object picture_refused (client (Some "token"))
              "me" None None None [] (PDict {[ "id" := PStr "42" ]})
              [request_call (client (Some "token")) "me" None None None])
    as (d & status & Hv & Hnet & Herr).
  - vm_compute. reflexivity.
  - exists d. split; [exact Hv|]. injection Hv as <-. reflexivity.
Defined.

Lemma request_args_cases (g : GraphAPI) (args post_args : option dict) :
  (request_args g args post_args = (default ∅ args, post_args) ∧
   (Val.given (access_token g) = false ∨
    is_Some (default ∅ args !! "access_token"))) ∨
  (∃ p : dict,
     Val.given (access_token g) = true ∧
     post_args = Some p ∧ p !! "access_token" = None ∧
     request_args g args post_args
     = (default ∅ args, Some (<["access_token" := Val.of_opt (access_token g)]> p))) ∨
  (Val.given (access_token g) = true ∧
   default ∅ args !! "access_token" = None ∧
   request_args g args post_args
   = (<["access_token" := Val.of_opt (access_token g)]> (default ∅ args), post_args)).
Proof.
  unfold request_args.
  set (a := default ∅ args). set (t := Val.of_opt (access_token g)).
  assert (Hinto :
    ((if bool_decide (is_Some (a !! "access_token")) then (a, post_args)
      else (<["access_token" := t]> a, post_args)) = (a, post_args) ∧
     is_Some (a !! "access_token")) ∨
    (a !! "access_token" = None ∧
     (if bool_decide (is_Some (a !! "access_token")) then (a, post_args)
      else (<["access_token" := t]> a, post_args))
     = (<["access_token" := t]> a, post_args))).
  { destruct (a !! "access_token") as [v|] eqn:Ha.
    - left. rewrite bool_decide_eq_true_2 by eauto. eauto.
    - right. rewrite bool_decide_eq_false_2 by (by intros [??]). done. }
  destruct (Val.given (access_token g)); [|left; auto].
  destruct post_args as [p|].
  - destruct (Val.truthy (PDict p) && _) eqn:Hp.
    + apply andb_true_iff in Hp as [_ Hnone].
      apply negb_true_iff, bool_decide_eq_false in Hnone.
      right. left. exists p. repeat split.
      destruct (p !! "access_token"); [destruct Hnone; eauto|done].
    + destruct Hinto as [[-> ?]|[? ->]]; [left|right; right]; auto.
  - destruct Hinto as [[-> ?]|[? ->]]; [left|right; right]; auto.
Qed.

(** X10: the token injection only ever adds the key [access_token]: every
    entry the caller put in the query parameters or in the POST body is sent
    as it was, no other key appears, an absent body stays absent; with a
    token the request always carries an [access_token] in one of the two
    mappings, and without one nothing is added. *)
Theorem request_args_only_adds_token (g : GraphAPI) (args post_args : option dict) :
  (∀ k v, default ∅ args !! k = Some v →
          (request_args g args post_args).1 !! k = Some v) ∧
  (∀ k, k ≠ "access_token" →
        (request_args g args post_args).1 !! k = default ∅ args !! k) ∧
  (∀ (p : dict), post_args = Some p →
     ∃ p' : dict,
       (request_args g args post_args).2 = Some p' ∧
       (∀ k v, p !! k = Some v → p' !! k = Some v) ∧
       (∀ k, k ≠ "access_token" → p' !! k = p !! k)) ∧
  (post_args = None → (request_args g args post_args).2 = None) ∧
  (Val.given (access_token g) = true →
   is_Some ((request_args g args post_args).1 !! "access_token") ∨
   ∃ p' : dict, (request_args g args post_args).2 = Some p' ∧
                is_Some (p' !! "access_token")) ∧
  (Val.given (access_token g) = false →
   request_args g args post_args = (default ∅ args, post_args)).
Proof.
  destruct (request_args_cases g args post_args)
    as [[-> Hwhy]|[(p & Hg & -> & Hp & ->)|(Hg & Ha & ->)]]; simpl.
  - split; [done|]. split; [done|]. split; [intros p ->; by exists p|].
    split; [done|]. split; [|done].
    intros Hg. destruct Hwhy as [Hno|Hyes]; [congruence|by left].
  - split; [done|]. split; [done|]. split.
    { intros p0 [= <-]. eexists. split; [done|]. split.
      - intros k v Hkv. rewrite lookup_insert_ne; [done|]. congruence.
      - intros k Hk. by rewrite lookup_insert_ne. }
    split; [done|]. split; [|congruence].
    intros _. right. eexists. split; [done|]. rewrite lookup_insert_eq. eauto.
  - split; [intros k v Hkv; rewrite lookup_insert_ne; [done|congruence]|].
    split; [intros k Hk; by rewrite lookup_insert_ne|].
    split; [intros p ->; by exists p|].
    split; [done|]. split; [|congruence].
    intros _. left. rewrite lookup_insert_eq. eauto.
Qed.


Lemma request_args_only_adds_token_witness :
  is_Some ((request_args (client (Some "token")) None None).1 !! "access_token").
Proof.
  destruct (request_args_only_adds_token (client (Some "token")) None None)
    as (_ & _ & _ & _ & Hwith & _).
  destruct Hwith as [H|(p' & Hp & _)]; [reflexivity|exact H|discriminate Hp].
Defined.

(** ** The client: reads and guarded writes *)

Section ClientMore.

Variable net : network.

(** X11: [put_object], [put_comment], [put_like] and [put_wall_post] on a
    client whose token is [None] or empty fail before the network: the three
    first with the [AssertionError] of [put_object]; [put_wall_post] with the
    [TypeError] of its own call when a key of the attachment is [message],
    [self], [parent_object] or [connection_name], and with that
    [AssertionError] otherwise; the log is untouched. *)
Theorem guarded_writes_send_nothing g log :
  Val.given (access_token g) = false →
  (∀ parent connection data,
     put_object net g parent connection data log
     = (Raise (AssertionError "Write operations require an access token"), log)) ∧
  (∀ object_id message,
     put_comment net g object_id message log
     = (Raise (AssertionError "Write operations require an access token"), log)) ∧
  (∀ object_id,
     put_like net g object_id log
     = (Raise (AssertionError "Write operations require an access token"), log)) ∧
  (∀ message (attachment : dict) profile_id,
     put_wall_post net g message attachment profile_id log
     = (Raise (if bool_decide (Exists (fun k => is_Some (attachment !! k))
                                 ["self"; "parent_object"; "connection_name";
                                  "message"])
               then TypeError
               else AssertionError "Write operations require an access token"),
        log)).
Proof.
  intros Hg. repeat split; intros.
  - by apply put_object_requires_token.
  - by apply put_comment_requires_token.
  - by apply put_like_requires_token.
  - unfold put_wall_post. rewrite keyword_clash_spec.
    destruct (bool_decide _); [done|]. by apply put_object_requires_token.
Qed.

Lemma split_join_with sep (l : list string) :
  l ≠ [] → Forall (fun x => Str.occurs sep x = false) l →
  Str.split sep (join_with (String sep "") l) = l.
Proof.
  intros Hne Hall. induction Hall as [|x l Hx Hall IH]; [done|].
  destruct l as [|y l].
  - simpl. by apply split_free.
  - change (join_with (String sep "") (x :: y :: l))
      with (x +:+ String sep (join_with (String sep "") (y :: l))).
    rewrite split_append by done. f_equal. by apply IH.
Qed.

Lemma request_args_keeps (g : GraphAPI) (args post_args : option dict) k v :
  default ∅ args !! k = Some v → (request_args g args post_args).1 !! k = Some v.
Proof.
  intros Hkv.
  destruct (request_args_cases g args post_args)
    as [[-> _]|[(p & _ & _ & _ & ->)|(_ & Ha & ->)]]; simpl; try done.
  rewrite lookup_insert_ne; [done|]. congruence.
Qed.

(** X12: [get_objects] makes one GET to the root of the API; among the
    parameters it sends, [ids] is the identifiers joined by commas, which
    splits at the commas back into the identifiers when there is at least one
    and none holds a comma; the caller's other parameters go along
    unchanged. *)
Theorem get_objects_sends_ids g (ids : list string) (args : dict) log :
  ids ≠ [] → Forall (fun i => Str.occurs "," i = false) ids →
  ∃ outcome call (params : dict) sent,
    get_objects net g ids args log = (outcome, log ++ [call]) ∧
    call_method call = "GET" ∧ call_url call = url g ∧ call_data call = None ∧
    call_params call = Some params ∧
    params !! "ids" = Some (PStr sent) ∧ Str.split "," sent = ids ∧
    ∀ k v, k ≠ "ids" → args !! k = Some v → params !! k = Some v.
Proof.
  intros Hne Hall. unfold get_objects.
  set (sent_args := <["ids" := PStr (join_with "," ids)]> args).
  exists (request net g "" (Some sent_args) None None log).1,
    (request_call g "" (Some sent_args) None None),
    (request_args g (Some sent_args) None).1,
    (join_with "," ids).
  split.
  { rewrite <- (request_one_call net g "" (Some sent_args) None None log).
    by destruct (request net g "" (Some sent_args) None None log). }
  split; [reflexivity|].
  split; [apply append_empty_r|].
  split.
  { simpl. by destruct (request_args_cases g (Some sent_args) None)
      as [[-> _]|[(p & _ & [=] & _)|(_ & _ & ->)]]. }
  split; [reflexivity|].
  split; [apply request_args_keeps, lookup_insert_eq|].
  split; [by apply split_join_with|].
  intros k v Hk Hv. apply request_args_keeps. simpl. unfold sent_args.
  by rewrite lookup_insert_ne.
Qed.

End ClientMore.

Lemma guarded_writes_send_nothing_witness :
  put_like picture_refused (client None) "123" []
  = (Raise (AssertionError "Write operations require an access token"), []).
Proof.
  destruct (guarded_writes_send_nothing picture_refused (client None) [])
    as (_ & _ & Hlike & _); [reflexivity|].
  apply Hlike.
Defined.

Lemma get_objects_sends_ids_witness :
  ∃ outcome call (params : dict) sent,
    get_objects picture_refused (client (Some "token")) ["1"; "2"] ∅ []
      = (outcome, [] ++ [call]) ∧
    call_method call = "GET" ∧ call_url call = url (client (Some "token")) ∧
    call_data call = None ∧ call_params call = Some params ∧
    params !! "ids" = Some (PStr sent) ∧ Str.split "," sent = ["1"; "2"] ∧
    ∀ k v, k ≠ "ids" → (∅ : dict) !! k = Some v → params !! k = Some v.
Proof.
  apply (get_objects_sends_ids picture_refused (client (Some "token")) ["1"; "2"] ∅ []).
  - discriminate.
  - repeat constructor.
Defined.

(** ** [put_event]: the primary request and the round trips *)

Section EventMore.

Variable net : network.
Variable str : pyval → string.

Lemma put_event_picture_first g page_id fb_uid data response log r m log' :
  put_event_picture net str g page_id fb_uid data response log = (Ok (r, m), log') →
  r = response.
Proof.
  unfold put_event_picture, mbind, io_mbind, io_bind.
  destruct (page_token net g page_id fb_uid log) as [[[token err]|e] log2]; [|done].
  destruct (Val.truthy err); [by intros [= <- _ _]|].
  unfold lift. destruct (Py.getitem data "picture") as [picture|]; [|done].
  destruct (Val.getitem response "id") as [i|]; [|done].
  unfold http. destruct (net log2 _) as [status json|read|e]; simpl; try done.
  destruct (negb (status =? 200)); [|by intros [= <- _ _]].
  destruct json as [body|e]; [|done].
  destruct (body_error_message body); [|done]. by intros [= <- _ _].
Qed.

(** X13: the object [put_event] returns is always what the POST of the
    event returned, with or without a message beside it; and when that POST
    raises, [put_event] raises the same exception and goes no further. *)
Theorem put_event_returns_primary g id page_id fb_uid (data : dict) log :
  (∀ r m log',
     put_event net str g id page_id fb_uid data log = (Ok (r, m), log') →
     ∃ log1,
       request net g (event_path id page_id) None (Some data) (Some "POST") log
       = (Ok r, log1)) ∧
  (∀ e log1,
     request net g (event_path id page_id) None (Some data) (Some "POST") log
     = (Raise e, log1) →
     put_event net str g id page_id fb_uid data log = (Raise e, log1)).
Proof.
  split.
  - intros r m log'. unfold put_event.
    destruct (request net g _ None (Some data) (Some "POST") log)
      as [[response|e] log1] eqn:Hreq.
    + erewrite bind_ok by exact Hreq.
      destruct (_ && _).
      * intros ->%put_event_picture_first. eauto.
      * intros [= <- _ _]. eauto.
    + by erewrite bind_raise by exact Hreq.
  - intros e log1 Hreq. unfold put_event. by erewrite bind_raise by exact Hreq.
Qed.

Lemma calls_within_0 {A} (m : io A) :
  (∀ log, (m log).2 = log) → calls_within 0 m.
Proof. intros H log. exists []. by rewrite app_nil_r, H. Qed.

Lemma calls_within_http (c : http_call) : calls_within 1 (http net c).
Proof. intros log. by exists [c]. Qed.

Lemma calls_within_le {A} n n' (m : io A) :
  (n ≤ n')%nat → calls_within n m → calls_within n' m.
Proof. intros Hle Hm log. destruct (Hm log) as (rest & ? & ?). exists rest. split; [done|lia]. Qed.

Lemma calls_within_bind {A B} n1 n2 (m : io A) (f : A → io B) :
  calls_within n1 m → (∀ a, calls_within n2 (f a)) → calls_within (n1 + n2) (m ≫= f).
Proof.
  intros Hm Hf log. unfold mbind, io_mbind, io_bind.
  destruct (Hm log) as (r1 & H1 & Hl1).
  destruct (m log) as [[a|e] log1]; simpl in H1; subst.
  - destruct (Hf a (log ++ r1)) as (r2 & H2 & Hl2). exists (r1 ++ r2).
    rewrite H2, app_assoc, length_app. split; [done|lia].
  - exists r1. split; [done|lia].
Qed.

Lemma calls_within_local {A B} n (r : result A) (f : A → io B) :
  (∀ a, calls_within n (f a)) → calls_within n (lift r ≫= f).
Proof.
  intros Hf. apply (calls_within_bind 0 n); [|done]. by apply calls_within_0.
Qed.

Lemma calls_within_reply {B} n reply (f : Z * result pyval → io B) :
  (∀ a, calls_within n (f a)) → calls_within n (reply_response reply ≫= f).
Proof.
  intros Hf. apply (calls_within_bind 0 n); [|done].
  apply calls_within_0. by destruct reply.
Qed.

Lemma calls_within_request g path args post_args method :
  calls_within 1 (request net g path args post_args method).
Proof.
  intros log. exists [request_call g path args post_args method].
  split; [apply request_one_call|done].
Qed.

Lemma calls_within_get_page_access_token g page_id fb_uid :
  calls_within 1 (get_page_access_token net g page_id fb_uid).
Proof.
  unfold get_page_access_token.
  apply (calls_within_bind 1 0); [apply calls_within_http|]. intros reply.
  apply calls_within_reply. intros [status json].
  apply calls_within_local. intros account_data.
  destruct (negb _).
  - apply calls_within_local. intros. by apply calls_within_0.
  - do 3 (apply calls_within_local; intros). by apply calls_within_0.
Qed.

Lemma calls_within_put_event_picture g page_id fb_uid data response :
  calls_within 2 (put_event_picture net str g page_id fb_uid data response).
Proof.
  unfold put_event_picture.
  apply (calls_within_bind 1 1).
  - unfold page_token. destruct (_ && _).
    + apply calls_within_get_page_access_token.
    + apply (calls_within_le 0); [lia|]. by apply calls_within_0.
  - intros [token err]. destruct (Val.truthy err).
    + apply (calls_within_le 0); [lia|]. by apply calls_within_0.
    + do 2 (apply calls_within_local; intros).
      apply (calls_within_bind 1 0); [apply calls_within_http|]. intros reply.
      apply calls_within_reply. intros [status json].
      destruct (negb _); [|by apply calls_within_0].
      do 2 (apply calls_within_local; intros). by apply calls_within_0.
Qed.

(** X14: [put_event] never makes more than three round trips (the event,
    the accounts of the page, the picture), and when [data] has no
    [picture] it makes the one POST of the event and pairs what came back
    with [None]. *)
Theorem put_event_round_trips g id page_id fb_uid (data : dict) :
  calls_within 3 (put_event net str g id page_id fb_uid data) ∧
  (data !! "picture" = None →
   ∀ log,
     put_event net str g id page_id fb_uid data log
     = (match (request net g (event_path id page_id) None (Some data)
                 (Some "POST") log).1 with
        | Ok response => Ok (response, PNone)
        | Raise e => Raise e
        end,
        log ++ [request_call g (event_path id page_id) None (Some data) (Some "POST")])).
Proof.
  split.
  - unfold put_event. apply (calls_within_bind 1 2); [apply calls_within_request|].
    intros response. destruct (_ && _).
    + apply calls_within_put_event_picture.
    + apply (calls_within_le 0); [lia|]. by apply calls_within_0.
  - intros Hpic log. unfold put_event.
    pose proof (request_one_call net g (event_path id page_id) None (Some data)
                  (Some "POST") log) as Hlog.
    destruct (request net g _ None (Some data) (Some "POST") log)
      as [[response|e] log1] eqn:Hreq; simpl in Hlog; subst log1.
    + erewrite bind_ok by exact Hreq.
      rewrite request_args_data_other, Hpic by done. done.
    + by erewrite bind_raise by exact Hreq.
Qed.

End EventMore.

Lemma put_event_round_trips_witness :
  put_event picture_refused str_of (client (Some "token")) None None None
    {[ "name" := PStr "party" ]} []
  = (Ok (PDict {[ "id" := PStr "42" ]}, PNone),
     [request_call (client (Some "token")) "me/events" None
        (Some {[ "name" := PStr "party" ]}) (Some "POST")]).
Proof.
  destruct (put_event_round_trips picture_refused str_of (client (Some "token"))
              None None None {[ "name" := PStr "party" ]}) as [_ H].
  rewrite H by reflexivity. vm_compute. reflexivity.
Defined.

Lemma put_event_returns_primary_witness :
  ∃ log1,
    request picture_refused (client (Some "token")) "me/events" None (Some party)
      (Some "POST") []
    = (Ok (PDict {[ "id" := PStr "42" ]}), log1).
Proof.
  destruct (put_event_returns_primary picture_refused str_of (client (Some "token"))
              None None None party []) as [H _].
  apply (H (PDict {[ "id" := PStr "42" ]}) (PStr "bad image")
           [request_call (client (Some "token")) "me/events" None (Some party) (Some "POST");
            picture_call str_of (client (Some "token")) PNone
              (PStr "http://example.com/p.jpg") (PStr "42")]).
  vm_compute. reflexivity.
Defined.

(** ** The token of a page *)

Section PageToken.

Variable net : network.
Variable str : pyval → string.

Lemma matching_tokens_cons page_id account accounts :
  matching_tokens page_id (account :: accounts)
  = match account with
    | PDict d =>
        match d !! "id" with
        | Some i => if Val.eq_str i page_id
                    then match d !! "access_token" with
                         | Some t => t :: matching_tokens page_id accounts
                         | None => matching_tokens page_id accounts
                         end
                    else matching_tokens page_id accounts
        | None => matching_tokens page_id accounts
        end
    | _ => matching_tokens page_id accounts
    end.
Proof.
  unfold matching_tokens. simpl. destruct account; try done.
  destruct (d !! "id"); [|done]. destruct (Val.eq_str _ _); [|done].
  by destruct (d !! "access_token").
Qed.

Lemma find_page_token_app page_id l1 : ∀ l2 found,
  Forall (account_ok page_id) l1 →
  find_page_token (l1 ++ l2) page_id found
  = find_page_token l2 page_id (default found (last (matching_tokens page_id l1))).
Proof.
  induction l1 as [|account l1 IH]; intros l2 found Hok; [done|].
  apply Forall_cons in Hok as [(d & i & -> & Hid & Htok) Hok].
  rewrite matching_tokens_cons, Hid. simpl. unfold Py.getitem. rewrite Hid.
  destruct (Val.eq_str i page_id).
  - destruct (Htok eq_refl) as [t Ht]. rewrite Ht, (IH _ _ Hok), last_cons.
    by destruct (last _).
  - by rewrite (IH _ _ Hok).
Qed.

Lemma find_page_token_last page_id accounts found :
  Forall (account_ok page_id) accounts →
  find_page_token accounts page_id found
  = Ok (default found (last (matching_tokens page_id accounts))).
Proof.
  intros Hok. rewrite <- (app_nil_r accounts) at 1.
  by rewrite find_page_token_app.
Qed.

Lemma get_page_access_token_200 g page_id fb_uid log (body : dict) accounts :
  net log (accounts_call g fb_uid) = Response 200 (Ok (PDict body)) →
  body !! "data" = Some (PList accounts) →
  get_page_access_token net g page_id fb_uid log
  = (match find_page_token accounts page_id PNone with
     | Ok token => Ok (token, PNone)
     | Raise e => Raise e
     end, log ++ [accounts_call g fb_uid]).
Proof.
  intros Hnet Hdata. unfold get_page_access_token.
  rewrite bind_http, Hnet. simpl reply_response. rewrite bind_ret. cbv beta iota.
  rewrite bind_lift_ok. change (negb (200 =? 200)) with false. cbv iota.
  simpl Val.get. rewrite Hdata. simpl. rewrite !bind_lift_ok.
  unfold mbind, io_mbind, io_bind, lift. simpl Val.iter. cbv iota.
  by destruct (find_page_token accounts page_id PNone).
Qed.

(** X15: when the accounts of the user come back on a 200 as a list of
    objects that each have an [id] (and an [access_token] where the [id] is
    the page's), [get_page_access_token] makes its one GET and returns the
    token of the last account whose [id] is the page's, or [None] when no
    account matches, with no message. *)
Theorem page_token_is_last_match g page_id fb_uid log (body : dict) accounts :
  net log (accounts_call g fb_uid) = Response 200 (Ok (PDict body)) →
  body !! "data" = Some (PList accounts) →
  Forall (account_ok page_id) accounts →
  get_page_access_token net g page_id fb_uid log
  = (Ok (default PNone (last (matching_tokens page_id accounts)), PNone),
     log ++ [accounts_call g fb_uid]).
Proof.
  intros Hnet Hdata Hok.
  rewrite (get_page_access_token_200 _ _ _ _ _ _ Hnet Hdata).
  by rewrite find_page_token_last.
Qed.

(** X16: the loop over the accounts does not stop at a match: an account
    without an [id] anywhere in the list makes the lookup raise
    [KeyError('id')], even when an earlier account carried the page's
    token. *)
Theorem page_token_malformed_account g page_id fb_uid log (body d : dict)
    before after :
  net log (accounts_call g fb_uid) = Response 200 (Ok (PDict body)) →
  body !! "data" = Some (PList (before ++ PDict d :: after)) →
  Forall (account_ok page_id) before → d !! "id" = None →
  get_page_access_token net g page_id fb_uid log
  = (Raise (KeyError "id"), log ++ [accounts_call g fb_uid]).
Proof.
  intros Hnet Hdata Hok Hid.
  rewrite (get_page_access_token_200 _ _ _ _ _ _ Hnet Hdata).
  rewrite find_page_token_app by done. simpl. unfold Py.getitem. by rewrite Hid.
Qed.

Lemma page_token_refused g (page_id fb_uid : string) log status (body e : dict) :
  page_id ≠ "" → fb_uid ≠ "" →
  net log (accounts_call g fb_uid) = Response status (Ok (PDict body)) →
  status ≠ 200 → body !! "error" = Some (PDict e) →
  page_token net g (Some page_id) (Some fb_uid) log
  = (Ok (PNone, default PNone (e !! "message")), log ++ [accounts_call g fb_uid]).
Proof.
  intros Hp Hu Hnet Hstatus Herr. unfold page_token, Val.given. simpl.
  rewrite !(proj2 (String.eqb_neq _ _)) by done. simpl.
  unfold get_page_access_token.
  rewrite bind_http, Hnet. simpl reply_response. rewrite bind_ret. cbv beta iota.
  rewrite bind_lift_ok, (proj2 (Z.eqb_neq status 200)) by done.
  change (negb false) with true. cbv iota.
  unfold body_error_message. simpl. by rewrite Herr.
Qed.

(** X17: for an event with a picture on a page, when the event was created
    and the lookup of the page's accounts is refused (a status other than
    200) with an error whose [message] is true as a condition, [put_event]
    returns the created object with that message after two round trips:
    the picture is not sent. *)
Theorem put_event_page_lookup_refused g id (page_id fb_uid : string)
    (data : dict) log log1 (r : dict) picture i status (body e : dict) message :
  request net g (event_path id (Some page_id)) None (Some data) (Some "POST") log
    = (Ok (PDict r), log1) →
  data !! "picture" = Some picture → r !! "id" = Some i →
  page_id ≠ "" → fb_uid ≠ "" →
  net log1 (accounts_call g fb_uid) = Response status (Ok (PDict body)) →
  status ≠ 200 → body !! "error" = Some (PDict e) →
  e !! "message" = Some message → Val.truthy message = true →
  put_event net str g id (Some page_id) (Some fb_uid) data log
  = (Ok (PDict r, message), log1 ++ [accounts_call g fb_uid]).
Proof.
  intros Hreq Hpic Hid Hp Hu Hnet Hstatus Herr Hmsg Htrue.
  apply (put_event_page_token_failure_keeps_event net str g id (Some page_id)
           (Some fb_uid) data log log1 (log1 ++ [accounts_call g fb_uid]) r
           picture i PNone message Hreq Hpic Hid); [|exact Htrue].
  rewrite (page_token_refused g page_id fb_uid log1 status body e) by done.
  by rewrite Hmsg.
Qed.

(** X18: when that lookup is refused with an error that has no [message]
    (or one that is false as a condition), the refusal goes unnoticed: the
    picture is sent all the same, with the client's own token in place of the
    page's. *)
Theorem put_event_page_lookup_silent g id (page_id fb_uid : string)
    (data : dict) log log1 (r : dict) picture i status (body e : dict) :
  request net g (event_path id (Some page_id)) None (Some data) (Some "POST") log
    = (Ok (PDict r), log1) →
  data !! "picture" = Some picture → r !! "id" = Some i →
  page_id ≠ "" → fb_uid ≠ "" →
  net log1 (accounts_call g fb_uid) = Response status (Ok (PDict body)) →
  status ≠ 200 → body !! "error" = Some (PDict e) →
  Val.truthy (default PNone (e !! "message")) = false →
  ∃ outcome,
    put_event net str g id (Some page_id) (Some fb_uid) data log
    = (outcome,
       log1 ++ [accounts_call g fb_uid; picture_call str g PNone picture i]) ∧
    call_data (picture_call str g PNone picture i)
    = Some (<["access_token" := Val.of_opt (access_token g)]>
              {[ "cover_url" := picture ]}).
Proof.
  intros Hreq Hpic Hid Hp Hu Hnet Hstatus Herr Hfalse.
  eexists. split.
  - rewrite (put_event_upload net str g id (Some page_id) (Some fb_uid) data log log1
               (log1 ++ [accounts_call g fb_uid]) r picture i PNone
               (default PNone (e !! "message")) Hreq Hpic Hid).
    + rewrite <- app_assoc. simpl. reflexivity.
    + by apply (page_token_refused g page_id fb_uid log1 status body e).
    + exact Hfalse.
  - reflexivity.
Qed.

End PageToken.

Lemma page_token_is_last_match_witness :
  get_page_access_token accounts_listed (client (Some "token")) "p1" "me" []
  = (Ok (PStr "new", PNone), [accounts_call (client (Some "token")) "me"]).
Proof.
  etrans.
  - apply (page_token_is_last_match accounts_listed (client (Some "token")) "p1" "me" []
             {[ "data" := PList [account "p1" "old"; account "p2" "other";
                                 account "p1" "new"] ]}
             [account "p1" "old"; account "p2" "other"; account "p1" "new"]).
    + reflexivity.
    + reflexivity.
    + repeat constructor; eexists _, _; (split; [reflexivity|]);
        (split; [reflexivity|]); intros _; by eexists.
  - vm_compute. reflexivity.
Defined.

Lemma page_token_malformed_account_witness :
  get_page_access_token accounts_broken (client (Some "token")) "p1" "me" []
  = (Raise (KeyError "id"), [accounts_call (client (Some "token")) "me"]).
Proof.
  apply (page_token_malformed_account accounts_broken (client (Some "token")) "p1" "me" []
           {[ "data" := PList [account "p1" "old";
                               PDict {[ "name" := PStr "nameless" ]}] ]}
           {[ "name" := PStr "nameless" ]}
           [account "p1" "old"] []).
  - reflexivity.
  - reflexivity.
  - repeat constructor. eexists _, _. split; [reflexivity|].
    split; [reflexivity|]. intros _. by eexists.
  - reflexivity.
Defined.

Lemma put_event_page_lookup_refused_witness :
  put_event (lookup_refused {[ "message" := PStr "denied" ]}) str_of
    (client (Some "token")) None (Some "p1") (Some "me") party []
  = (Ok (PDict {[ "id" := PStr "42" ]}, PStr "denied"),
     [request_call (client (Some "token")) "p1/events" None (Some party) (Some "POST");
      accounts_call (client (Some "token")) "me"]).
Proof.
  apply (put_event_page_lookup_refused (lookup_refused {[ "message" := PStr "denied" ]})
           str_of (client (Some "token")) None "p1" "me" party []
           [request_call (client (Some "token")) "p1/events" None (Some party)
              (Some "POST")]
           {[ "id" := PStr "42" ]} (PStr "http://example.com/p.jpg") (PStr "42") 403
           {[ "error" := PDict {[ "message" := PStr "denied" ]} ]}
           {[ "message" := PStr "denied" ]} (PStr "denied"));
    try (vm_compute; reflexivity); discriminate.
Defined.

Lemma put_event_page_lookup_silent_witness :
  ∃ outcome,
    put_event (lookup_refused ∅) str_of (client (Some "token")) None (Some "p1")
      (Some "me") party []
    = (outcome,
       [request_call (client (Some "token")) "p1/events" None (Some party) (Some "POST");
        accounts_call (client (Some "token")) "me";
        picture_call str_of (client (Some "token")) PNone
          (PStr "http://example.com/p.jpg") (PStr "42")]).
Proof.
  destruct (put_event_page_lookup_silent (lookup_refused ∅) str_of
              (client (Some "token")) None "p1" "me" party []
              [request_call (client (Some "token")) "p1/events" None (Some party)
                 (Some "POST")]
              {[ "id" := PStr "42" ]} (PStr "http://example.com/p.jpg") (PStr "42") 403
              {[ "error" := PDict ∅ ]} ∅) as [outcome [Hrun _]].
  - vm_compute. reflexivity.
  - vm_compute. reflexivity.
  - vm_compute. reflexivity.
  - discriminate.
  - discriminate.
  - vm_compute. reflexivity.
  - discriminate.
  - vm_compute. reflexivity.
  - vm_compute. reflexivity.
  - exists outcome. exact Hrun.
Defined.

(** ** The permissions of a user *)

Section Permissions.

Variable net : network.

Lemma statuses_of_cons name n st entries :
  statuses_of name ((n, st) :: entries)
  = if decide (n = name) then st :: statuses_of name entries
    else statuses_of name entries.
Proof. unfold statuses_of. simpl. by destruct (decide (n = name)). Qed.

Lemma add_permission_record perms record entry :
  permission_record record entry →
  add_permission perms record
  = Ok (<[KStr entry.1 := Val.eq_str entry.2 "granted"]> perms).
Proof.
  intros (d & -> & Hname & Hstatus). unfold add_permission. simpl.
  unfold Py.getitem. by rewrite Hstatus, Hname.
Qed.

Lemma fill_permissions_records records entries :
  Forall2 permission_record records entries →
  ∀ perms0, ∃ perms,
    fill_permissions perms0 records = Ok perms ∧
    ∀ k, perms !! k
         = match k with
           | KStr name =>
               match last (statuses_of name entries) with
               | Some st => Some (Val.eq_str st "granted")
               | None => perms0 !! k
               end
           | _ => perms0 !! k
           end.
Proof.
  induction 1 as [|record [n st] records entries Hrec _ IH]; intros perms0.
  - exists perms0. split; [done|]. by intros [].
  - cbn [fill_permissions]. rewrite (add_permission_record _ _ _ Hrec).
    cbn [fst snd].
    destruct (IH (<[KStr n := Val.eq_str st "granted"]> perms0)) as (perms & -> & Hl).
    exists perms. split; [done|]. intros k. rewrite Hl.
    destruct k as [|x|name]; try by rewrite lookup_insert_ne.
    rewrite statuses_of_cons. destruct (decide (n = name)) as [->|Hne].
    + rewrite last_cons. destruct (last _); [done|]. by rewrite lookup_insert_eq.
    + rewrite lookup_insert_ne by congruence. done.
Qed.

Lemma fill_permissions_app records1 records2 entries perms0 :
  Forall2 permission_record records1 entries →
  ∃ perms1, fill_permissions perms0 (records1 ++ records2)
            = fill_permissions perms1 records2.
Proof.
  intros Hrec. revert perms0.
  induction Hrec as [|record entry records entries Hr _ IH]; intros perms0.
  - by exists perms0.
  - simpl. rewrite (add_permission_record _ _ _ Hr). apply IH.
Qed.

Lemma get_permissions_listing g id log status (body : dict) :
  net log (request_call g (id +:+ "/permissions") None None None)
    = Response status (Ok (PDict body)) →
  Val.truthy (default PNone (body !! "error")) = false →
  get_permissions net g id log
  = (match Val.iter (default PNone (body !! "data")) with
     | Ok items => fill_permissions ∅ items
     | Raise e => Raise e
     end,
     log ++ [request_call g (id +:+ "/permissions") None None None]).
Proof.
  intros Hnet Herr. unfold get_permissions.
  erewrite bind_ok by (by apply request_plain_object_returned with status).
  simpl Val.get. rewrite bind_lift_ok.
  unfold mbind, io_mbind, io_bind, lift.
  by destruct (Val.iter _).
Qed.

(** X19: when the reply to the one GET of [id/permissions] is an object
    whose [data] is a list of records, each with a string [permission] and a
    [status], [get_permissions] returns the mapping that has exactly the
    listed permission names as keys, each with [True] when the status of the
    last record of that name is the string [granted] and [False]
    otherwise. *)
Theorem get_permissions_lists g id log status (body : dict) records entries :
  net log (request_call g (id +:+ "/permissions") None None None)
    = Response status (Ok (PDict body)) →
  Val.truthy (default PNone (body !! "error")) = false →
  body !! "data" = Some (PList records) →
  Forall2 permission_record records entries →
  ∃ perms,
    get_permissions net g id log
    = (Ok perms, log ++ [request_call g (id +:+ "/permissions") None None None]) ∧
    (∀ name, perms !! KStr name
             = (fun st => Val.eq_str st "granted") <$> last (statuses_of name entries)) ∧
    (∀ k, is_Some (perms !! k) → ∃ name, k = KStr name).
Proof.
  intros Hnet Herr Hdata Hrec.
  rewrite (get_permissions_listing _ _ _ _ _ Hnet Herr), Hdata. simpl.
  destruct (fill_permissions_records _ _ Hrec ∅) as (perms & -> & Hl).
  exists perms. split; [done|]. split.
  - intros name. rewrite Hl. by destruct (last _).
  - intros k. rewrite Hl. destruct k; rewrite ?lookup_empty; try by intros [??].
    eauto.
Qed.

(** X20: one bad record spoils the whole listing: a record without a
    [status], wherever it stands in the list and whether or not it has a
    [permission], makes [get_permissions] raise [KeyError('status')]; the
    permissions read before it are not returned. *)
Theorem get_permissions_bad_record g id log status (body d : dict)
    before after entries :
  net log (request_call g (id +:+ "/permissions") None None None)
    = Response status (Ok (PDict body)) →
  Val.truthy (default PNone (body !! "error")) = false →
  body !! "data" = Some (PList (before ++ PDict d :: after)) →
  Forall2 permission_record before entries → d !! "status" = None →
  get_permissions net g id log
  = (Raise (KeyError "status"),
     log ++ [request_call g (id +:+ "/permissions") None None None]).
Proof.
  intros Hnet Herr Hdata Hrec Hstatus.
  rewrite (get_permissions_listing _ _ _ _ _ Hnet Herr), Hdata. simpl.
  destruct (fill_permissions_app before (PDict d :: after) entries ∅ Hrec)
    as [perms1 ->].
  simpl. unfold add_permission. simpl. unfold Py.getitem. by rewrite Hstatus.
Qed.

(** X21: an answer without [data] is not an empty listing: when the decoded
    object has no [data] key, [get_permissions] raises [TypeError] (the loop
    runs over [None]) instead of returning an empty mapping. *)
Theorem get_permissions_without_data g id log status (body : dict) :
  net log (request_call g (id +:+ "/permissions") None None None)
    = Response status (Ok (PDict body)) →
  Val.truthy (default PNone (body !! "error")) = false →
  body !! "data" = None →
  get_permissions net g id log
  = (Raise TypeError, log ++ [request_call g (id +:+ "/permissions") None None None]).
Proof.
  intros Hnet Herr Hdata.
  by rewrite (get_permissions_listing _ _ _ _ _ Hnet Herr), Hdata.
Qed.

End Permissions.

Lemma get_permissions_lists_witness :
  ∃ perms,
    get_permissions permissions_listed (client (Some "token")) "me" []
    = (Ok perms, [request_call (client (Some "token")) "me/permissions" None None None]) ∧
    perms !! KStr "email" = Some true ∧ perms !! KStr "user_friends" = Some false ∧
    perms !! KStr "publish_actions" = None.
Proof.
  destruct (get_permissions_lists permissions_listed (client (Some "token")) "me" [] 200
              {[ "data" := PList [permission "email" "granted";
                                  permission "user_friends" "declined"] ]}
              [permission "email" "granted"; permission "user_friends" "declined"]
              [("email", PStr "granted"); ("user_friends", PStr "declined")])
    as (perms & Hrun & Hl & _).
  - reflexivity.
  - reflexivity.
  - reflexivity.
  - repeat constructor; eexists; (split; [reflexivity|]); split; reflexivity.
  - exists perms. split; [exact Hrun|]. rewrite !Hl. by repeat split.
Defined.

Lemma get_permissions_bad_record_witness :
  get_permissions permissions_broken (client (Some "token")) "me" []
  = (Raise (KeyError "status"),
     [request_call (client (Some "token")) "me/permissions" None None None]).
Proof.
  apply (get_permissions_bad_record permissions_broken (client (Some "token")) "me" [] 200
           {[ "data" := PList [permission "email" "granted";
                               PDict {[ "permission" := PStr "user_friends" ]}] ]}
           {[ "permission" := PStr "user_friends" ]}
           [permission "email" "granted"] [] [("email", PStr "granted")]).
  - reflexivity.
  - reflexivity.
  - reflexivity.
  - repeat constructor. eexists. split; [reflexivity|]. split; reflexivity.
  - reflexivity.
Defined.

Lemma get_permissions_without_data_witness :
  get_permissions no_listing (client (Some "token")) "me" []
  = (Raise TypeError,
     [request_call (client (Some "token")) "me/permissions" None None None]).
Proof.
  apply (get_permissions_without_data no_listing (client (Some "token")) "me" [] 200
           {[ "success" := PBool true ]}); reflexivity.
Defined.

(** ** The legacy query client *)

Section FqlUrl.

Lemma split_cons_form sep s : ∃ f fs, Str.split sep s = f :: fs.
Proof.
  induction s as [|a s (f & fs & IH)]; simpl; [by eauto|].
  destruct (Ascii.eqb a sep); [by eauto|]. rewrite IH. eauto.
Qed.

Lemma unquote_plain c r :
  c ≠ "%"%char → Cgi.unquote (String c r) = String c (Cgi.unquote r).
Proof.
  intros Hc. unfold Cgi.unquote. simpl.
  rewrite (proj2 (Ascii.eqb_neq c "%")) by done.
  destruct (split_cons_form "%" r) as (f & fs & ->). reflexivity.
Qed.

Lemma unquote_escape c r : Cgi.unquote (Fql.escape c +:+ r) = String c (Cgi.unquote r).
Proof.
  unfold Cgi.unquote.
  destruct (split_cons_form "%" r) as (f & fs & Hr).
  assert (Hsplit : Str.split "%" (Fql.escape c +:+ r)
                   = "" :: String (Fql.hex_upper (N_of_ascii c / 16))
                             (String (Fql.hex_upper (N_of_ascii c mod 16)) f) :: fs).
  { unfold Fql.escape. rewrite !append_cons, append_empty_l.
    change (Str.split "%" (String "%" ?x)) with ("" :: Str.split "%" x).
    f_equal.
    destruct c as [[] [] [] [] [] [] [] []]; simpl; by rewrite Hr. }
  rewrite Hsplit, Hr. simpl.
  change (Cgi.unquote_item ?i +:+ ?t = String c (f +:+ ?t'))
    with (Cgi.unquote_item i +:+ t = String c f +:+ t').
  f_equal. destruct c as [[] [] [] [] [] [] [] []]; reflexivity.
Qed.

Lemma replace_append a b s t :
  Str.replace a b (s +:+ t) = Str.replace a b s +:+ Str.replace a b t.
Proof.
  induction s as [|c s IH]; [done|].
  rewrite append_cons. simpl. by rewrite IH.
Qed.

(** a quoted character, once [+] is a space again, unquotes to itself *)
Lemma unquote_quote_char c r :
  Cgi.unquote (Str.replace "+" " " (Fql.quote_char c) +:+ r) = String c (Cgi.unquote r).
Proof.
  unfold Fql.quote_char. destruct (Fql.always_safe c) eqn:Hsafe.
  - assert (c ≠ "+"%char ∧ c ≠ "%"%char) as [Hplus Hpct].
    { split; intros ->; discriminate. }
    simpl. rewrite (proj2 (Ascii.eqb_neq c "+")) by done.
    rewrite append_cons, append_empty_l. by apply unquote_plain.
  - destruct (Ascii.eqb c " ") eqn:Hsp.
    + apply Ascii.eqb_eq in Hsp as ->. simpl.
      rewrite append_cons, append_empty_l. by apply unquote_plain.
    + replace (Str.replace "+" " " (Fql.escape c)) with (Fql.escape c).
      * apply unquote_escape.
      * clear. destruct c as [[] [] [] [] [] [] [] []]; reflexivity.
Qed.

Lemma field_quote_plus s : Cgi.field (Fql.quote_plus s) = s.
Proof.
  unfold Cgi.field. induction s as [|c s IH]; [done|].
  simpl Fql.quote_plus. rewrite replace_append, unquote_quote_char. by f_equal.
Qed.

Lemma quote_char_free c :
  Str.occurs "&" (Fql.quote_char c) = false ∧ Str.occurs ";" (Fql.quote_char c) = false ∧
  Str.occurs "=" (Fql.quote_char c) = false ∧ Str.occurs "?" (Fql.quote_char c) = false ∧
  Str.occurs "#" (Fql.quote_char c) = false ∧ Str.occurs " " (Fql.quote_char c) = false ∧
  Fql.quote_char c ≠ "".
Proof. destruct c as [[] [] [] [] [] [] [] []]; by repeat split. Qed.

Lemma quote_plus_free s :
  Str.occurs "&" (Fql.quote_plus s) = false ∧ Str.occurs ";" (Fql.quote_plus s) = false ∧
  Str.occurs "=" (Fql.quote_plus s) = false ∧ Str.occurs "?" (Fql.quote_plus s) = false ∧
  Str.occurs "#" (Fql.quote_plus s) = false ∧ Str.occurs " " (Fql.quote_plus s) = false.
Proof.
  induction s as [|c s (H1 & H2 & H3 & H4 & H5 & H6)]; [done|].
  destruct (quote_char_free c) as (Q1 & Q2 & Q3 & Q4 & Q5 & Q6 & _).
  simpl Fql.quote_plus. rewrite !occurs_append.
  by rewrite H1, H2, H3, H4, H5, H6, Q1, Q2, Q3, Q4, Q5, Q6.
Qed.

Lemma quote_plus_nonempty s : s ≠ "" → Fql.quote_plus s ≠ "".
Proof.
  destruct s as [|c s]; [done|]. intros _. simpl.
  destruct (quote_char_free c) as (_ & _ & _ & _ & _ & _ & Hne).
  destruct (Fql.quote_char c); done.
Qed.

(** one field [n=v] of a query, escapes and all *)
Lemma parse_qsl_raw_field n v :
  Str.occurs "&" n = false → Str.occurs ";" n = false → Str.occurs "=" n = false →
  Str.occurs "&" v = false → Str.occurs ";" v = false → v ≠ "" →
  Cgi.parse_qsl (n +:+ String "=" v) = [(Cgi.field n, Cgi.field v)].
Proof.
  intros Hn1 Hn2 Hn3 Hv1 Hv2 Hv.
  unfold Cgi.parse_qsl.
  rewrite split_free by (rewrite occurs_append, occurs_cons; by rewrite Hn1, Hv1).
  simpl. rewrite split_free by (rewrite occurs_append, occurs_cons; by rewrite Hn2, Hv2).
  simpl. rewrite (split1_append _ _ _ Hn3).
  destruct n, v; done.
Qed.

Lemma parse_qsl_raw_cons n v rest :
  Str.occurs "&" n = false → Str.occurs ";" n = false → Str.occurs "=" n = false →
  Str.occurs "&" v = false → Str.occurs ";" v = false → v ≠ "" →
  Cgi.parse_qsl (n +:+ String "=" (v +:+ String "&" rest))
  = (Cgi.field n, Cgi.field v) :: Cgi.parse_qsl rest.
Proof.
  intros Hn1 Hn2 Hn3 Hv1 Hv2 Hv.
  pose proof (parse_qsl_raw_field n v Hn1 Hn2 Hn3 Hv1 Hv2 Hv) as Hfield.
  unfold Cgi.parse_qsl in *.
  assert (Hfree : Str.occurs "&" (n +:+ String "=" v) = false)
    by (rewrite occurs_append, occurs_cons; by rewrite Hn1, Hv1).
  rewrite (split_free _ _ Hfree) in Hfield.
  change (n +:+ String "=" (v +:+ String "&" rest))
    with (n +:+ String "=" v +:+ String "&" rest).
  rewrite <- append_assoc, (split_append _ _ _ Hfree). simpl in *.
  rewrite flat_map_app, app_nil_r in *. by rewrite Hfield.
Qed.

(** X22: the URL [FQLAPI.request] opens carries the token and the query
    text as two parameters whatever characters they hold: for a non-empty
    token and query the call opens one URL, the endpoint followed by [?] and
    a query string free of [?], [#] and spaces, and that query string parses
    back into exactly [access_token], [format=json] and [query] with the
    token and the text as they were given. *)
Theorem fql_url_round_trip (urlopen : Fql.opener) (token text : string) :
  token ≠ "" → text ≠ "" →
  ∃ outcome qs,
    Fql.request urlopen (Some token) text = (outcome, [Fql.endpoint +:+ "?" +:+ qs]) ∧
    Str.occurs "?" qs = false ∧ Str.occurs "#" qs = false ∧ Str.occurs " " qs = false ∧
    Cgi.parse_qsl qs = [("access_token", token); ("format", "json"); ("query", text)].
Proof.
  intros Htoken Htext. eexists _, (Fql.query_string token text).
  split; [reflexivity|].
  destruct (quote_plus_free token) as (T1 & T2 & T3 & T4 & T5 & T6).
  destruct (quote_plus_free text) as (Q1 & Q2 & Q3 & Q4 & Q5 & Q6).
  unfold Fql.query_string.
  repeat split.
  - rewrite !occurs_append. by rewrite T4, Q4.
  - rewrite !occurs_append. by rewrite T5, Q5.
  - rewrite !occurs_append. by rewrite T6, Q6.
  - change ("access_token=" +:+ Fql.quote_plus token +:+ "&format=json&query="
            +:+ Fql.quote_plus text)
      with ("access_token" +:+ String "="
              (Fql.quote_plus token +:+ String "&"
                 ("format" +:+ String "=" ("json" +:+ String "&"
                    ("query" +:+ String "=" (Fql.quote_plus text)))))).
    rewrite parse_qsl_raw_cons by (done || by apply quote_plus_nonempty).
    rewrite parse_qsl_raw_cons by done.
    rewrite parse_qsl_raw_field by (done || by apply quote_plus_nonempty).
    by rewrite !field_quote_plus.
Qed.

Lemma fql_url_round_trip_witness :
  ∃ outcome qs,
    Fql.request (fun _ => Ok (Ok PNone)) (Some "a&b=c")
      "SELECT uid FROM user WHERE name='x y'"
    = (outcome, [Fql.endpoint +:+ "?" +:+ qs]) ∧
    Str.occurs "?" qs = false ∧ Str.occurs "#" qs = false ∧ Str.occurs " " qs = false ∧
    Cgi.parse_qsl qs
    = [("access_token", "a&b=c"); ("format", "json");
       ("query", "SELECT uid FROM user WHERE name='x y'")].
Proof.
  apply (fql_url_round_trip (fun _ => Ok (Ok PNone)) "a&b=c"
           "SELECT uid FROM user WHERE name='x y'"); discriminate.
Defined.

(** X23: [FQLAPI.request] hands back what the service sent when that is
    not an error object: an array or a scalar as it is (where
    [GraphAPI.request] raises), and an object whose [error_code] is absent or
    false; one URL is opened. *)
Theorem fql_returns_verbatim (urlopen : Fql.opener) (token text : string) response :
  urlopen (Fql.endpoint +:+ "?" +:+ Fql.query_string token text) = Ok (Ok response) →
  (∀ d : dict, response = PDict d → Val.truthy (default PNone (d !! "error_code")) = false) →
  Fql.request urlopen (Some token) text
  = (Fql.Returned response, [Fql.endpoint +:+ "?" +:+ Fql.query_string token text]).
Proof.
  intros Hopen Hplain. unfold Fql.request. rewrite Hopen. f_equal.
  destruct response as [| | | | | |d]; try reflexivity.
  simpl. by rewrite (Hplain d eq_refl).
Qed.

Lemma fql_returns_verbatim_witness :
  Fql.request (fun _ => Ok (Ok (PList [PDict {[ "uid" := PInt 4 ]}]))) (Some "token")
    "SELECT uid FROM user"
  = (Fql.Returned (PList [PDict {[ "uid" := PInt 4 ]}]),
     [Fql.endpoint +:+ "?" +:+ Fql.query_string "token" "SELECT uid FROM user"]).
Proof.
  apply (fql_returns_verbatim (fun _ => Ok (Ok (PList [PDict {[ "uid" := PInt 4 ]}])))
           "token" "SELECT uid FROM user" (PList [PDict {[ "uid" := PInt 4 ]}])).
  - reflexivity.
  - discriminate.
Defined.

(** X24: an error object of the legacy API becomes [FQLAPIError] with its
    [error_code] and [error_msg] only when it has both: an object with a true
    [error_code] and no [error_msg] makes the call raise
    [KeyError('error_msg')] instead. *)
Theorem fql_error_object (urlopen : Fql.opener) (token text : string) (d : dict) code :
  urlopen (Fql.endpoint +:+ "?" +:+ Fql.query_string token text) = Ok (Ok (PDict d)) →
  d !! "error_code" = Some code → Val.truthy code = true →
  (Fql.request urlopen (Some token) text).1
  = match d !! "error_msg" with
    | Some msg => Fql.FQLAPIError code msg
    | None => Fql.Raised (KeyError "error_msg")
    end.
Proof.
  intros Hopen Hcode Htrue. unfold Fql.request. rewrite Hopen. simpl.
  rewrite Hcode. simpl. rewrite Htrue. by destruct (d !! "error_msg").
Qed.

Lemma fql_error_object_witness :
  (Fql.request (fun _ => Ok (Ok (PDict {[ "error_code" := PInt 601 ]}))) (Some "token")
     "SELECT").1
  = Fql.Raised (KeyError "error_msg").
Proof.
  etrans.
  - apply (fql_error_object (fun _ => Ok (Ok (PDict {[ "error_code" := PInt 601 ]})))
             "token" "SELECT" {[ "error_code" := PInt 601 ]} (PInt 601)); reflexivity.
  - reflexivity.
Defined.

End FqlUrl.

(** ** The multipart dispatcher *)

Section MultipartMore.

Variable boundary : string.
Variable guess_type : string → option string.
Variable str : pyval → string.
Variable items : ∀ V, gmap string V → list (string * V).
Variable net : Multipart.connection.

(** X25: [multipart_request] works only when both [post_args] and [files]
    are given: with either left at its default [None] the encoding of the
    body raises [AttributeError] before anything is sent, token or not. *)
Theorem multipart_needs_both g path (args post_args : option dict)
    (files : option (gmap string string)) :
  post_args = None ∨ files = None →
  Multipart.multipart_request boundary guess_type str items net g path args post_args files
  = (Raise AttributeError, []).
Proof.
  intros Hnone. unfold Multipart.multipart_request, Multipart.multipart_args.
  destruct Hnone as [-> | ->].
  - by destruct (Val.given (access_token g)).
  - destruct (Val.given (access_token g)); simpl; by destruct post_args.
Qed.

(** X26: the two dispatchers treat an [access_token] the caller put in the
    POST body in opposite ways: on a client with a token
    [multipart_request] replaces it by the client's and leaves the query
    parameters alone, while [request] sends the body as the caller gave
    it. *)
Theorem multipart_token_overwrites g (args : option dict) (p : dict) token mine :
  access_token g = Some token → token ≠ "" →
  p !! "access_token" = Some mine →
  Multipart.multipart_args g args (Some p)
    = (default ∅ args, Some (<["access_token" := PStr token]> p)) ∧
  (request_args g args (Some p)).2 = Some p.
Proof.
  intros Htok Hne Hmine.
  assert (Hgiven : Val.given (access_token g) = true).
  { rewrite Htok. unfold Val.given. simpl. apply negb_true_iff.
    by apply String.eqb_neq. }
  split.
  - unfold Multipart.multipart_args. by rewrite Hgiven, Htok.
  - destruct (request_args_cases g args (Some p))
      as [[-> _]|[(p' & _ & [= <-] & Hfresh & _)|(_ & _ & ->)]]; try done.
    congruence.
Qed.

Lemma multipart_request_sent g path (args : option dict) (p : dict)
    (f : gmap string string) :
  ∃ c body headers,
    Multipart.encode_multipart_data boundary guess_type str items
      (Multipart.multipart_args g args (Some p)).2 (Some f) = Ok (body, headers) ∧
    c = {| Multipart.mp_method :=
             Multipart.multipart_method (Multipart.multipart_args g args (Some p)).2 (Some f);
           Multipart.mp_path :=
             path +:+ "?" +:+ Multipart.urlencode str items
                               (Multipart.multipart_args g args (Some p)).1;
           Multipart.mp_body := body;
           Multipart.mp_headers := headers |} ∧
    Multipart.multipart_request boundary guess_type str items net g path args (Some p) (Some f)
    = (match net c with
       | Ok (Ok response) => Multipart.multipart_response response
       | Ok (Raise e) => Raise e
       | Raise e => Raise e
       end, [c]).
Proof.
  unfold Multipart.multipart_request.
  assert (Hpost : ∃ p', (Multipart.multipart_args g args (Some p)).2 = Some p').
  { unfold Multipart.multipart_args. destruct (Val.given _); eauto. }
  destruct Hpost as [p' Hp']. rewrite Hp'.
  eexists _, _, _. split; [reflexivity|]. split; reflexivity.
Qed.

(** X27: [multipart_request] hands back a decoded response that is not an
    object (an array, a scalar) as it is, like an object whose [error] is
    absent or false; [GraphAPI.request] raises on the former. *)
Theorem multipart_returns_verbatim g path (args : option dict) (p : dict)
    (f : gmap string string) response :
  (∀ c, net c = Ok (Ok response)) →
  (∀ d : dict, response = PDict d → Val.truthy (default PNone (d !! "error")) = false) →
  (Multipart.multipart_request boundary guess_type str items net g path args
     (Some p) (Some f)).1
  = Ok response.
Proof.
  intros Hnet Hplain.
  destruct (multipart_request_sent g path args p f) as (c & body & headers & _ & _ & ->).
  simpl. rewrite Hnet. destruct response as [| | | | | |d]; try reflexivity.
  simpl. by rewrite (Hplain d eq_refl).
Qed.

(** X28: an error object is reported through [response["error"]["type"]]
    and [["message"]], not through [get]: when the [error] of the response is
    an object that lacks [type] (or [message]) the call raises
    [KeyError] for the missing key, and when it is true but not an object,
    [TypeError]; only an [error] with both keys becomes [GraphAPIError]. *)
Theorem multipart_error_object g path (args : option dict) (p : dict)
    (f : gmap string string) (d : dict) error :
  (∀ c, net c = Ok (Ok (PDict d))) →
  d !! "error" = Some error → Val.truthy error = true →
  (Multipart.multipart_request boundary guess_type str items net g path args
     (Some p) (Some f)).1
  = match error with
    | PDict e =>
        match e !! "type", e !! "message" with
        | Some type, Some message => Raise (GraphAPIError type message)
        | None, _ => Raise (KeyError "type")
        | Some _, None => Raise (KeyError "message")
        end
    | _ => Raise TypeError
    end.
Proof.
  intros Hnet Herr Htrue.
  destruct (multipart_request_sent g path args p f) as (c & body & headers & _ & _ & ->).
  simpl. rewrite Hnet. unfold Multipart.multipart_response, Py.getitem.
  rewrite Herr. simpl. rewrite Htrue. simpl.
  destruct error as [| | | | | |e]; try reflexivity.
  simpl. unfold Py.getitem.
  destruct (e !! "type"); [|done]. simpl. by destruct (e !! "message").
Qed.

End MultipartMore.

Lemma multipart_needs_both_witness :
  Multipart.multipart_request "xx" (fun _ => None) str_of (fun V => map_to_list)
    (fun _ => Ok (Ok PNone)) (client (Some "token")) "/me/photos" None
    (Some {[ "message" := PStr "hi" ]}) None
  = (Raise AttributeError, []).
Proof.
  apply (multipart_needs_both "xx" (fun _ => None) str_of (fun V => map_to_list)
           (fun _ => Ok (Ok PNone)) (client (Some "token")) "/me/photos" None
           (Some {[ "message" := PStr "hi" ]}) None).
  by right.
Defined.

Lemma multipart_token_overwrites_witness :
  Multipart.multipart_args (client (Some "token")) None
    (Some {[ "access_token" := PStr "mine" ]})
  = (∅, Some {[ "access_token" := PStr "token" ]}) ∧
  (request_args (client (Some "token")) None
     (Some {[ "access_token" := PStr "mine" ]})).2
  = Some {[ "access_token" := PStr "mine" ]}.
Proof.
  destruct (multipart_token_overwrites (client (Some "token")) None
              {[ "access_token" := PStr "mine" ]} "token" (PStr "mine"))
    as [H1 H2]; [reflexivity|discriminate|reflexivity|].
  split; [|exact H2]. rewrite H1. vm_compute. reflexivity.
Defined.

Lemma multipart_returns_verbatim_witness :
  (Multipart.multipart_request "xx" (fun _ => None) str_of (fun V => map_to_list)
     (fun _ => Ok (Ok (PList [PInt 1; PInt 2]))) (client (Some "token")) "/me/photos" None
     (Some ∅) (Some ∅)).1
  = Ok (PList [PInt 1; PInt 2]).
Proof.
  apply (multipart_returns_verbatim "xx" (fun _ => None) str_of (fun V => map_to_list)
           (fun _ => Ok (Ok (PList [PInt 1; PInt 2]))) (client (Some "token"))
           "/me/photos" None ∅ ∅ (PList [PInt 1; PInt 2])).
  - reflexivity.
  - discriminate.
Defined.

Lemma multipart_error_object_witness :
  (Multipart.multipart_request "xx" (fun _ => None) str_of (fun V => map_to_list)
     (fun _ => Ok (Ok (PDict {[ "error" := PDict {[ "message" := PStr "M" ]} ]})))
     (client (Some "token")) "/me/photos" None (Some ∅) (Some ∅)).1
  = Raise (KeyError "type").
Proof.
  etrans.
  - apply (multipart_error_object "xx" (fun _ => None) str_of (fun V => map_to_list)
             (fun _ => Ok (Ok (PDict {[ "error" := PDict {[ "message" := PStr "M" ]} ]})))
             (client (Some "token")) "/me/photos" None ∅ ∅
             {[ "error" := PDict {[ "message" := PStr "M" ]} ]}
             (PDict {[ "message" := PStr "M" ]})); reflexivity.
  - reflexivity.
Defined.
